(** * eclairjs-node: the SQL facades [DataFrame] and [Row]

    A shallow embedding of [lib/sql/DataFrame.js] and [lib/sql/Row.js] and
    the properties of the request-construction / response-coercion pipeline
    that the specification states about them.

    Conventions of the embedding.
    - A JavaScript string is a [string]: one [ascii] stands for one code unit,
      so [String.length] is [.length] and [substring] is [.substring].
    - A thrown or rejected JavaScript value is a [jsError] (its [name] and
      [message] properties).
    - Code that writes to the console and may throw runs in the monad [js]:
      the lines printed so far, and either the exception that ended the run or
      the value it returned.
    - What the engine provides and the repository only calls ([JSON.parse],
      [JSON.stringify], the text of a [TypeError]) is the interface
      [JSRuntime]; the theorems hold for every implementation of it, and
      [reference_runtime] is one to compute with. *)

From Stdlib Require Import ZArith String Ascii List Bool Lia.
From Stdlib Require Import Decimal DecimalString DecimalPos.
From stdpp Require Import base option list gmap strings.

Local Open Scope string_scope.
Local Open Scope list_scope.
Local Open Scope nat_scope.

(** ** Thrown values and promises *)

Record jsError := { name : string; message : string }.

Definition TypeError (msg : string) : jsError :=
  {| name := "TypeError"; message := msg |}.

Definition SyntaxError (msg : string) : jsError :=
  {| name := "SyntaxError"; message := msg |}.

(** [new Error(msg)] *)
Definition Error (msg : string) : jsError :=
  {| name := "Error"; message := msg |}.

(** How a promise ends once it is settled. *)
Inductive settlement (A : Type) : Type :=
| Resolved (a : A)
| Rejected (e : jsError).
Arguments Resolved {A} a.
Arguments Rejected {A} e.

(** A promise as an observer sees it at one moment. *)
Inductive promise (A : Type) : Type :=
| Pending
| Settled (s : settlement A).
Arguments Pending {A}.
Arguments Settled {A} s.

(** ** Console output and exceptions *)

Definition js (A : Type) : Type := (list string * (jsError + A))%type.

#[export] Instance js_ret : MRet js := fun A a => ([], inr a).

#[export] Instance js_bind : MBind js := fun A B f m =>
  match m with
  | (out, inl e) => (out, inl e)
  | (out, inr a) => let '(out', r) := f a in (out ++ out', r)
  end.

Definition throw {A : Type} (e : jsError) : js A := ([], inl e).

(** [console.log(line)] *)
Definition console_log (line : string) : js unit := ([line], inr tt).

(** [try { body } catch (e) { handler(e) }] *)
Definition try_catch {A : Type} (body : js A) (handler : jsError → js A) : js A :=
  match body with
  | (out, inl e) => let '(out', r) := handler e in (out ++ out', r)
  | (out, inr a) => (out, inr a)
  end.

(** [l.forEach(body)] where [body] updates the variable [acc] of the
    enclosing function. *)
Fixpoint forEach {A S : Type} (l : list A) (body : S → A → js S) (acc : S) : js S :=
  match l with
  | [] => mret acc
  | x :: rest => acc' ← body acc x; forEach rest body acc'
  end.

Definition console {A : Type} (m : js A) : list string := m.1.
Definition completion {A : Type} (m : js A) : jsError + A := m.2.

(** ** JSON *)

(** The values [JSON.parse] builds.  A number keeps the text of its literal:
    nothing below computes with it. *)
#[warnings="-register-all"]
Inductive json : Type :=
| JNull
| JBool (b : bool)
| JNum (literal : string)
| JStr (s : string)
| JArr (elems : list json)
| JObj (props : list (string * json)).

(** The own property [key] of an object literal; a key written twice keeps
    its last value. *)
Fixpoint own_property (props : list (string * json)) (key : string) : option json :=
  match props with
  | [] => None
  | (k, v) :: rest =>
      match own_property rest key with
      | Some w => Some w
      | None => if String.eqb k key then Some v else None
      end
  end.

(** What a property read can give: [undefined], a parsed value, or a method
    of a built-in prototype. *)
Inductive jsvalue : Type :=
| VUndefined
| VJson (j : json)
| VBuiltin (fname : string).

Class JSRuntime : Type := {
  (** [JSON.parse(text)]: the value, or the [SyntaxError] it throws *)
  JSON_parse : string → jsError + json;
  (** [JSON.stringify(v)] for a parsed value *)
  JSON_stringify : json → string;
  (** the message of the [TypeError] for reading property [key] of [base],
      which is [null] or [undefined] *)
  cannot_read : string → string → string;
  (** what the property [values] of an array reads as: the method
      [Array.prototype.values] where the engine has it, [undefined] where
      it does not *)
  array_values : jsvalue
}.

(** The two properties [_resolveRows] reads of each element. *)
Inductive row_key : Type := key_values | key_schema.

Definition key_name (k : row_key) : string :=
  match k with key_values => "values" | key_schema => "schema" end.

(** [rowData.values] and [rowData.schema].  Only [null] throws; an object
    gives its own property or [undefined]; an array has no [schema] and
    inherits what its prototype has for [values]; the prototypes of
    strings, numbers and booleans have neither. *)
Definition read `{JSRuntime} (rowData : json) (k : row_key) : js jsvalue :=
  match rowData with
  | JNull => throw (TypeError (cannot_read "null" (key_name k)))
  | JObj props =>
      mret (match own_property props (key_name k) with
            | Some v => VJson v
            | None => VUndefined
            end)
  | JArr _ =>
      mret (match k with
            | key_values => array_values
            | key_schema => VUndefined
            end)
  | JBool _ | JNum _ | JStr _ => mret VUndefined
  end.

(** [rowData.values] or [rowData.schema] where the read returns. *)
Definition property `{JSRuntime} (rowData : json) (k : row_key) : jsvalue :=
  match rowData with
  | JObj props =>
      match own_property props (key_name k) with
      | Some v => VJson v
      | None => VUndefined
      end
  | JArr _ =>
      match k with
      | key_values => array_values
      | key_schema => VUndefined
      end
  | _ => VUndefined
  end.

(** The element is an object with an own property [k]. *)
Definition has_key (rowData : json) (k : row_key) : bool :=
  match rowData with
  | JObj props => bool_decide (is_Some (own_property props (key_name k)))
  | _ => false
  end.

Definition is_null (j : json) : bool :=
  match j with JNull => true | _ => false end.

(** JSON text written with apostrophes for its double quotes. *)
Fixpoint dq (s : string) : string :=
  match s with
  | EmptyString => EmptyString
  | String c rest =>
      String (if Nat.eqb (nat_of_ascii c) 39 then ascii_of_nat 34 else c) (dq rest)
  end.

(** ** Numbers and the global parsing functions

    A Number is [NaN], an infinity, or a real number written
    [mantissa * 10 ^ exponent].  A numeric literal denotes such a real, its
    mathematical value, and the parsing functions round that to binary64
    ([RoundMV]).  The sign of zero is not modelled. *)

Inductive number : Type :=
| NaN
| Infinity (negative : bool)
| Finite (mantissa exponent : Z).

Definition char_code (c : ascii) : Z := Z.of_nat (nat_of_ascii c).

(** StrWhiteSpaceChar, as far as [ascii] reaches: TAB, LF, VT, FF, CR, SP
    and NBSP. *)
Definition is_StrWhiteSpaceChar (c : ascii) : bool :=
  let n := char_code c in
  ((9 <=? n) && (n <=? 13) || (n =? 32) || (n =? 160))%Z.

Fixpoint trim_start (s : list ascii) : list ascii :=
  match s with
  | c :: rest => if is_StrWhiteSpaceChar c then trim_start rest else s
  | [] => []
  end.

Definition trim (s : list ascii) : list ascii :=
  rev (trim_start (rev (trim_start s))).

(** The value of a digit or letter as a digit, if it is below the radix. *)
Definition radix_digit (R : Z) (c : ascii) : option Z :=
  let n := char_code c in
  let d := (if (48 <=? n) && (n <=? 57) then Some (n - 48)
            else if (97 <=? n) && (n <=? 122) then Some (n - 87)
            else if (65 <=? n) && (n <=? 90) then Some (n - 55)
            else None)%Z in
  match d with
  | Some v => if (v <? R)%Z then Some v else None
  | None => None
  end.

(** The longest prefix of radix-[R] digits: its value continuing [acc], how
    many digits it has, and what follows it. *)
Fixpoint digits_prefix (R : Z) (s : list ascii) (acc : Z) (count : nat)
  : Z * nat * list ascii :=
  match s with
  | c :: rest =>
      match radix_digit R c with
      | Some d => digits_prefix R rest (R * acc + d)%Z (S count)
      | None => (acc, count, s)
      end
  | [] => (acc, count, [])
  end.

Definition is_char (c : ascii) (a b : string) : bool :=
  match a, b with
  | String x _, String y _ => Ascii.eqb c x || Ascii.eqb c y
  | _, _ => false
  end.

(** A leading sign: whether it is a minus, and what follows it. *)
Definition sign_prefix (s : list ascii) : bool * list ascii :=
  match s with
  | c :: rest =>
      if Ascii.eqb c "-" then (true, rest)
      else if Ascii.eqb c "+" then (false, rest)
      else (false, s)
  | [] => (false, [])
  end.

Definition signed (negative : bool) (z : Z) : Z := if negative then (- z)%Z else z.

(** *** Rounding to binary64

    The Number for a real (ECMAScript 6.1.6.1, IEEE 754 binary64): the
    nearest of the values [q * 2 ^ p] with [q < 2 ^ 53] and
    [-1074 <= p <= 971], the one with even [q] when two are as near, and
    an infinity where rounding reaches [2 ^ 1024]. *)

(** The positive rational [num / den] divided by [2 ^ p], as a fraction of
    integers. *)
Definition scaled_numerator (num p : Z) : Z := (num * 2 ^ Z.max 0 (- p))%Z.
Definition scaled_denominator (den p : Z) : Z := (den * 2 ^ Z.max 0 p)%Z.

(** The exponent [p] of the last binary place kept of [num / den]: the one
    with [2 ^ 52 <= num / den / 2 ^ p < 2 ^ 53], found from the lengths of
    [num] and [den], or [-1074] where that is larger (a subnormal). *)
Definition last_place (num den : Z) : Z :=
  let p := (Z.log2 num - Z.log2 den - 52)%Z in
  let p := if (scaled_numerator num p <? 2 ^ 52 * scaled_denominator den p)%Z
           then (p - 1)%Z else p in
  Z.max p (-1074).

(** The integer nearest to [n / d], the even one of two that are as
    near. *)
Definition round_half_even (n d : Z) : Z :=
  let q := (n / d)%Z in
  let r := (n mod d)%Z in
  if (2 * r <? d)%Z then q
  else if (d <? 2 * r)%Z then (q + 1)%Z
  else if Z.even q then q else (q + 1)%Z.

(** The Number for the real [m * 10 ^ e].  One that is not an integer,
    [q / 2 ^ k], is written [q * 5 ^ k] with exponent [- k]. *)
Definition binary64 (m e : Z) : number :=
  if (m =? 0)%Z then Finite 0 0
  else
    let num := (Z.abs m * 10 ^ Z.max 0 e)%Z in
    let den := (10 ^ Z.max 0 (- e))%Z in
    let p := last_place num den in
    let q := round_half_even (scaled_numerator num p) (scaled_denominator den p) in
    if ((0 <=? p) && (2 ^ 1024 <=? q * 2 ^ p))%Z then Infinity (m <? 0)%Z
    else if (q =? 0)%Z then Finite 0 0
    else if (0 <=? p)%Z then Finite (signed (m <? 0)%Z (q * 2 ^ p)) 0
    else if (q mod 2 ^ (- p) =? 0)%Z then Finite (signed (m <? 0)%Z (q / 2 ^ (- p))) 0
    else Finite (signed (m <? 0)%Z (q * 5 ^ (- p))) p.

(** RoundMVResult: the Number for a mathematical value. *)
Definition RoundMV (x : number) : number :=
  match x with
  | Finite m e => binary64 m e
  | _ => x
  end.

(** The radix of the digits that follow: 16 after the prefix [0x] or [0X],
    which is dropped, 10 otherwise. *)
Definition radix_prefix (text : list ascii) : Z * list ascii :=
  match text with
  | z :: x :: rest =>
      if Ascii.eqb z "0" && is_char x "x" "X" then (16%Z, rest) else (10%Z, text)
  | _ => (10%Z, text)
  end.

(** [parseInt(string)] with no radix (ECMAScript 19.2.5). *)
Definition parseInt (input : string) : number :=
  let text := trim_start (list_ascii_of_string input) in
  let '(negative, text) := sign_prefix text in
  let '(R, text) := radix_prefix text in
  let '(mathInt, count, _) := digits_prefix R text 0 0 in
  if count =? 0 then NaN else RoundMV (Finite (signed negative mathInt) 0).

Fixpoint starts_with (p s : list ascii) : option (list ascii) :=
  match p, s with
  | [], _ => Some s
  | x :: p', y :: s' => if Ascii.eqb x y then starts_with p' s' else None
  | _ :: _, [] => None
  end.

(** The ExponentPart at the head of [s], if there is one: its value and
    what follows it. *)
Definition exponent_part (s : list ascii) : Z * list ascii :=
  match s with
  | e :: rest =>
      if is_char e "e" "E" then
        let '(negative, rest') := sign_prefix rest in
        let '(v, count, rest'') := digits_prefix 10 rest' 0 0 in
        if count =? 0 then (0%Z, s) else (signed negative v, rest'')
      else (0%Z, s)
  | [] => (0%Z, [])
  end.

(** The longest prefix of [s1] that is a StrUnsignedDecimalLiteral, read
    with the sign that came before it: its mathematical value and what
    follows it. *)
Definition scan_StrUnsignedDecimalLiteral (negative : bool) (s1 : list ascii)
  : option (number * list ascii) :=
  match starts_with (list_ascii_of_string "Infinity") s1 with
  | Some rest => Some (Infinity negative, rest)
  | None =>
      let '(int, n_int, s2) := digits_prefix 10 s1 0 0 in
      let '(mant, n_frac, s3) :=
        match s2 with
        | c :: rest => if Ascii.eqb c "." then digits_prefix 10 rest int 0 else (int, 0, s2)
        | [] => (int, 0, s2)
        end in
      if (n_int =? 0) && (n_frac =? 0) then None
      else
        let '(e, s4) := exponent_part s3 in
        Some (Finite (signed negative mant) (e - Z.of_nat n_frac), s4)
  end.

(** The longest prefix of [s] that is a StrDecimalLiteral. *)
Definition scan_StrDecimalLiteral (s : list ascii) : option (number * list ascii) :=
  let '(negative, s1) := sign_prefix s in
  scan_StrUnsignedDecimalLiteral negative s1.

(** [parseFloat(string)] (ECMAScript 19.2.4). *)
Definition parseFloat (input : string) : number :=
  match scan_StrDecimalLiteral (trim_start (list_ascii_of_string input)) with
  | Some (n, _) => RoundMV n
  | None => NaN
  end.

(** A whole text of radix-[R] digits, at least one: its mathematical
    value. *)
Definition radix_literal (R : Z) (s : list ascii) : number :=
  match digits_prefix R s 0 0 with
  | (v, S _, []) => Finite v 0
  | _ => NaN
  end.

(** The mathematical value of a string as a StringNumericLiteral
    (ECMAScript 7.1.4.1.2), [NaN] when it is none. *)
Definition StringNumericValue (s : string) : number :=
  match trim (list_ascii_of_string s) with
  | [] => Finite 0 0
  | z :: x :: rest =>
      if Ascii.eqb z "0" && is_char x "x" "X" then radix_literal 16 rest
      else if Ascii.eqb z "0" && is_char x "o" "O" then radix_literal 8 rest
      else if Ascii.eqb z "0" && is_char x "b" "B" then radix_literal 2 rest
      else match scan_StrDecimalLiteral (z :: x :: rest) with
           | Some (n, []) => n
           | _ => NaN
           end
  | t => match scan_StrDecimalLiteral t with
         | Some (n, []) => n
         | _ => NaN
         end
  end.

(** ToNumber applied to a string (ECMAScript 7.1.4.1.1); [new
    Number(s).valueOf()]. *)
Definition ToNumber (s : string) : number := RoundMV (StringNumericValue s).

(** [isFinite(s)] for a string [s]. *)
Definition isFinite (s : string) : bool :=
  match ToNumber s with Finite _ _ => true | _ => false end.

(** [s.charCodeAt(0)] *)
Definition charCodeAt0 (s : string) : number :=
  match s with
  | String c _ => Finite (char_code c) 0
  | EmptyString => NaN
  end.

Fixpoint trim_zeros (s : list ascii) : list ascii :=
  match s with
  | c :: rest => if Ascii.eqb c "0" then trim_zeros rest else s
  | [] => []
  end.

(** The canonical text of an integer: decimal digits, [-] before a negative
    one. *)
Definition integer_text (z : Z) : string := NilZero.string_of_int (Z.to_int z).

(** The text is an integer literal: an optional minus and decimal digits,
    nothing else. *)
Definition is_integer_literal (s : string) : bool :=
  let '(_, digits) := match list_ascii_of_string s with
                      | c :: rest => if Ascii.eqb c "-" then (true, rest) else (false, c :: rest)
                      | [] => (false, [])
                      end in
  match digits_prefix 10 digits 0 0 with
  | (_, S _, []) => true
  | _ => false
  end.

(** The character is a decimal digit. *)
Definition is_digit_char (c : ascii) : bool :=
  match radix_digit 10 c with Some _ => true | None => false end.

(** ** The canonical text of a Number *)

(** The decimal digits of [m] without its trailing zeros, and how many
    zeros were dropped. *)
Definition significant_digits (m : Z) : list ascii * nat :=
  let ds := list_ascii_of_string (integer_text (Z.abs m)) in
  let kept := rev (trim_zeros (rev ds)) in
  (kept, length ds - length kept).

(** Number::toString (ECMAScript 6.1.6.1.20) in radix 10 for a number
    that is not zero: with [s] its [k] significant digits and [n] such that
    the number is [s * 10 ^ (n - k)], the digits followed by zeros, the
    digits around a point, the digits after [0.] and zeros, or the
    exponential form. *)
Definition finite_chars (m e : Z) : list ascii :=
  let '(s, dropped) := significant_digits m in
  let k := Z.of_nat (length s) in
  let n := (k + e + Z.of_nat dropped)%Z in
  let body :=
    if ((k <=? n) && (n <=? 21))%Z then s ++ repeat "0"%char (Z.to_nat (n - k))
    else if ((0 <? n) && (n <=? 21))%Z then
      firstn (Z.to_nat n) s ++ "."%char :: skipn (Z.to_nat n) s
    else if ((-6 <? n) && (n <=? 0))%Z then
      "0"%char :: "."%char :: repeat "0"%char (Z.to_nat (- n)) ++ s
    else
      let exponent := (if (0 <=? n - 1)%Z then "+"%char else "-"%char)
                      :: list_ascii_of_string (integer_text (Z.abs (n - 1))) in
      match s with
      | [] => []
      | [d] => d :: "e"%char :: exponent
      | d :: more => d :: "."%char :: more ++ "e"%char :: exponent
      end in
  if (m <? 0)%Z then "-"%char :: body else body.

Definition number_text (x : number) : string :=
  match x with
  | NaN => "NaN"
  | Infinity negative => if negative then "-Infinity" else "Infinity"
  | Finite m e => if (m =? 0)%Z then "0" else string_of_list_ascii (finite_chars m e)
  end.


(** ** Utils and protocol *)

(** Continue with the value of a computation that did not throw. *)
Definition and_then {A B : Type} (f : A → B) (r : jsError + A) : jsError + B :=
  match r with
  | inl e => inl e
  | inr a => inr (f a)
  end.

Module Utils.

(** The scanner of [processTemplate]: outside a placeholder ([None]) the
    text is copied; inside one ([Some name]) the name is collected up to
    the closing braces and replaced by its slot. *)
Fixpoint substitute (slots : gmap string string) (inside : option (list ascii))
    (s : list ascii) : jsError + list ascii :=
  match inside, s with
  | None, [] => inr []
  | None, c :: rest =>
      match rest with
      | c' :: rest' =>
          if Ascii.eqb c "{" && Ascii.eqb c' "{" then substitute slots (Some []) rest'
          else and_then (cons c) (substitute slots None rest)
      | [] => inr [c]
      end
  | Some name, [] => inr ("{"%char :: "{"%char :: name)
  | Some name, c :: rest =>
      match rest with
      | c' :: rest' =>
          if Ascii.eqb c "}" && Ascii.eqb c' "}" then
            match slots !! string_of_list_ascii name with
            | Some text =>
                and_then (app (list_ascii_of_string text)) (substitute slots None rest')
            | None =>
                inl (Error ("No replacement for {{" +:+ string_of_list_ascii name +:+ "}}"))
            end
          else substitute slots (Some (name ++ [c])) rest
      | [] => inr ("{"%char :: "{"%char :: name ++ [c])
      end
  end.

(** Modelled from the spec: [Utils.processTemplate] of [../utils.js], which
    is not part of these sources.  Section 4.1: literal substitution of
    every placeholder [{{name}}] with its slot value; an unresolved
    placeholder fails fast.  A slot whose value is [undefined] is left out
    of [slots]. *)
Definition processTemplate (templateStr : string) (slots : gmap string string)
  : jsError + string :=
  and_then string_of_list_ascii (substitute slots None (list_ascii_of_string templateStr)).

(** A template read as literal text and placeholders. *)
Inductive segment : Type :=
| Lit (text : list ascii)
| Slot (name : list ascii).

(** The template a list of segments stands for. *)
Definition flatten (segs : list segment) : list ascii :=
  concat (map (fun seg => match seg with
                          | Lit text => text
                          | Slot name => "{"%char :: "{"%char :: name ++ ["}"%char; "}"%char]
                          end) segs).

(** The text of the segments with every placeholder replaced. *)
Fixpoint fill (slots : gmap string string) (segs : list segment) : jsError + list ascii :=
  match segs with
  | [] => inr []
  | Lit text :: rest => and_then (app text) (fill slots rest)
  | Slot name :: rest =>
      match slots !! string_of_list_ascii name with
      | Some text => and_then (app (list_ascii_of_string text)) (fill slots rest)
      | None => inl (Error ("No replacement for {{" +:+ string_of_list_ascii name +:+ "}}"))
      end
  end.

Definition lacks (c : ascii) (l : list ascii) : bool :=
  forallb (fun x => negb (Ascii.eqb x c)) l.

(** Literal text without an opening brace, a name without a closing one. *)
Definition plain (seg : segment) : bool :=
  match seg with
  | Lit text => lacks "{" text
  | Slot name => lacks "}" name
  end.

(** *** Call descriptors

    The object a facade method passes to [Utils.generate].  [target] is the
    receiver, whose resolved id is given when the statement is rendered; a
    key the object literal leaves out ([args], [stringify], [resolver],
    [type], [optional]) reads as empty, false or absent. *)

(** The primitive values a method argument can be. *)
Inductive argument : Type :=
| AUndefined
| ABoolean (b : bool)
| ANumber (n : number)
| AString (s : string).

Inductive arg_type : Type := type_boolean | type_number | type_string.

Record ArgSpec : Type := {
  value : argument;
  type : option arg_type;
  optional : bool
}.

(** [returnType]: [null], [String], or the constructor of a facade. *)
Inductive return_type : Type :=
| returns_null
| returns_String
| returns_object (constructor : string).

Record CallDescriptor (R : Type) : Type := {
  method : string;
  args : list ArgSpec;
  returnType : return_type;
  stringify : bool;
  resolver : option R
}.
Arguments method {R} _.
Arguments args {R} _.
Arguments returnType {R} _.
Arguments stringify {R} _.
Arguments resolver {R} _.

Definition ArgumentTypeError (msg : string) : jsError :=
  {| name := "ArgumentTypeError"; message := msg |}.

Section Generate.
(** The quoting and escaping of a string for the statement syntax, which
    the specification leaves to the implementation. *)
Variable quote : string → string.

(** Modelled from the spec: the Argument Marshaller of [Utils.generate]
    ([../utils.js] is not part of these sources).  Section 4.2: a boolean
    or a number is rendered as its canonical text and a string quoted; an
    optional argument whose value is absent is omitted ([None]); a declared
    type that does not match the value fails with ArgumentTypeError. *)
Definition marshal (a : ArgSpec) : jsError + option string :=
  match value a, type a with
  | AUndefined, _ =>
      if optional a then inr None
      else inl (ArgumentTypeError "a required argument is undefined")
  | ABoolean b, (Some type_boolean | None) => inr (Some (if b then "true" else "false"))
  | ANumber n, (Some type_number | None) => inr (Some (number_text n))
  | AString s, (Some type_string | None) => inr (Some (quote s))
  | _, _ => inl (ArgumentTypeError "the value does not have its declared type")
  end.

(** The rendered arguments, in order, the omitted ones left out. *)
Fixpoint marshal_all (l : list ArgSpec) : jsError + list string :=
  match l with
  | [] => inr []
  | a :: rest =>
      match marshal a with
      | inl e => inl e
      | inr None => marshal_all rest
      | inr (Some text) => and_then (cons text) (marshal_all rest)
      end
  end.

(** Modelled from the spec: the statement [Utils.generate] renders.
    Section 4.3, step 2: [<target-id>.<method>(<rendered-args>);], bound to
    a freshly generated variable when the call produces a new remote
    object, a bare expression statement otherwise. *)
Definition generate_statement {R : Type} (d : CallDescriptor R) (targetId fresh : string)
  : jsError + string :=
  and_then
    (fun rendered =>
       let call := targetId +:+ "." +:+ method d
                   +:+ "(" +:+ String.concat ", " rendered +:+ ");" in
       match returnType d with
       | returns_object _ => "var " +:+ fresh +:+ " = " +:+ call
       | _ => call
       end)
    (marshal_all (args d)).
End Generate.

End Utils.

(** What a Row promise resolves with. *)
Inductive result : Type :=
| RJson (j : json)
| RNumber (n : number)
| RString (s : string).

(** ** The promise chain of one Row call

    Every implemented method of [Row.js] returns
    [new Promise(function(resolve, reject) {
       Promise.all([self.refIdP, self.kernelP]).then(function(values) {
         ... protocol.verifyResult(kernel.execute({code: code}), _resolve, reject);
       }).catch(reject) })]
    and differs in the template, its replacements and [_resolve] only. *)

Record remote_call : Type := {
  templateStr : string;
  (** the replacements object, given the resolved [refId] *)
  replacements : string → gmap string string;
  (** what [_resolve] passes to [resolve], or the exception it throws *)
  _resolve : string → jsError + result
}.

Section Dispatch.
Variable Kernel : Type.

(** What happens to the promises the call waits for: [self.refIdP] and
    [self.kernelP] settle, and so does the promise [kernel.execute]
    returned.  A promise that is already settled when the method is called
    settles first in the trace: its reactions run after the call either
    way. *)
Inductive event : Type :=
| RefIdSettles (s : settlement string)
| KernelSettles (s : settlement Kernel)
| ExecuteSettles (s : settlement string).

Record state : Type := {
  refIdP : promise string;
  kernelP : promise Kernel;
  (** [Promise.all([self.refIdP, self.kernelP])] *)
  allP : promise (string * Kernel);
  (** the calls [kernel.execute({code: code})] made so far, oldest first *)
  executed : list (Kernel * string);
  (** the promise [kernel.execute] returned, once it is called *)
  executeP : option (promise string);
  (** the promise the method returned *)
  returned : promise result
}.

Definition initial : state :=
  {| refIdP := Pending; kernelP := Pending; allP := Pending;
     executed := []; executeP := None; returned := Pending |}.

(** A promise settles once; later attempts change nothing. *)
Definition settle {A : Type} (p : promise A) (s : settlement A) : promise A :=
  match p with
  | Pending => Settled s
  | Settled _ => p
  end.

Definition resolve (st : state) (v : result) : state :=
  {| refIdP := refIdP st; kernelP := kernelP st; allP := allP st;
     executed := executed st; executeP := executeP st;
     returned := settle (returned st) (Resolved v) |}.

Definition reject (st : state) (e : jsError) : state :=
  {| refIdP := refIdP st; kernelP := kernelP st; allP := allP st;
     executed := executed st; executeP := executeP st;
     returned := settle (returned st) (Rejected e) |}.

(** The function passed to [then]: render the statement and submit it.  An
    exception of [processTemplate] rejects the promise [then] returned,
    which [catch(reject)] hands to [reject]. *)
Definition then_callback (c : remote_call) (st : state) (refId : string) (kernel : Kernel)
  : state :=
  match Utils.processTemplate (templateStr c) (replacements c refId) with
  | inr code =>
      {| refIdP := refIdP st; kernelP := kernelP st; allP := allP st;
         executed := executed st ++ [(kernel, code)];
         executeP := Some Pending; returned := returned st |}
  | inl e => reject st e
  end.

(** The reactions of [Promise.all]: it rejects with the first rejection of
    an input, and fulfils once every input is fulfilled. *)
Definition react (c : remote_call) (st : state) : state :=
  match allP st with
  | Settled _ => st
  | Pending =>
      let all_settles (s : settlement (string * Kernel)) : state :=
        {| refIdP := refIdP st; kernelP := kernelP st; allP := Settled s;
           executed := executed st; executeP := executeP st; returned := returned st |} in
      match refIdP st, kernelP st with
      | Settled (Rejected e), _ => reject (all_settles (Rejected e)) e
      | _, Settled (Rejected e) => reject (all_settles (Rejected e)) e
      | Settled (Resolved refId), Settled (Resolved kernel) =>
          then_callback c (all_settles (Resolved (refId, kernel))) refId kernel
      | _, _ => st
      end
  end.

(** Modelled from the spec: [protocol.verifyResult] of [../kernel.js], which
    is not part of these sources.  Section 6: it yields the plain evaluation
    result after confirming no execution error and propagates a kernel-side
    error as a rejection; section 7: no error is swallowed, so an exception
    of the callback rejects too. *)
Definition verifyResult (c : remote_call) (st : state) (reply : settlement string) : state :=
  match reply with
  | Resolved payload =>
      match _resolve c payload with
      | inr v => resolve st v
      | inl e => reject st e
      end
  | Rejected e => reject st e
  end.

Definition step (c : remote_call) (st : state) (ev : event) : state :=
  match ev with
  | RefIdSettles s =>
      react c {| refIdP := settle (refIdP st) s; kernelP := kernelP st; allP := allP st;
                 executed := executed st; executeP := executeP st;
                 returned := returned st |}
  | KernelSettles s =>
      react c {| refIdP := refIdP st; kernelP := settle (kernelP st) s; allP := allP st;
                 executed := executed st; executeP := executeP st;
                 returned := returned st |}
  | ExecuteSettles s =>
      match executeP st with
      | Some Pending =>
          verifyResult c
            {| refIdP := refIdP st; kernelP := kernelP st; allP := allP st;
               executed := executed st; executeP := Some (Settled s);
               returned := returned st |} s
      | _ => st
      end
  end.

(** The state after the events of [trace], from the call on. *)
Definition run (c : remote_call) (trace : list event) : state :=
  fold_left (step c) trace initial.

(** A method call either throws at once or returns the promise of a
    remote call. *)
Inductive invocation : Type :=
| Throws (e : jsError)
| Returns (c : remote_call).

(** The statements an invocation has submitted after [trace]. *)
Definition submitted (inv : invocation) (trace : list event) : list (Kernel * string) :=
  match inv with
  | Throws _ => []
  | Returns c => executed (run c trace)
  end.

End Dispatch.

Arguments RefIdSettles {Kernel} s.
Arguments KernelSettles {Kernel} s.
Arguments ExecuteSettles {Kernel} s.
Arguments refIdP {Kernel} _.
Arguments kernelP {Kernel} _.
Arguments allP {Kernel} _.
Arguments executed {Kernel} _.
Arguments executeP {Kernel} _.
Arguments returned {Kernel} _.
Arguments initial {Kernel}.
Arguments resolve {Kernel} st v.
Arguments reject {Kernel} st e.
Arguments then_callback {Kernel} c st refId kernel.
Arguments react {Kernel} c st.
Arguments verifyResult {Kernel} c st reply.
Arguments step {Kernel} c st ev.
Arguments run {Kernel} c trace.
Arguments submitted {Kernel} inv trace.

(** The promise an invocation returned, as it is after [trace]. *)
Definition promise_of {Kernel : Type} (inv : invocation) (trace : list (event Kernel))
  : option (promise result) :=
  match inv with
  | Throws _ => None
  | Returns c => Some (returned (run c trace))
  end.

(** ** DataFrame.js *)

Module DataFrame.

Section ResolveRows.
Context `{JSRuntime}.
(** [RowFactory.createLocal] of [./RowFactory] (not part of these sources):
    a constructor, taken as a parameter. *)
Context {LocalRow : Type} (createLocal : jsvalue → jsvalue → LocalRow).

(** The body of the [forEach] callback: log the element, read its two
    properties, push the new Row. *)
Definition push_row (rows : list LocalRow) (rowData : json) : js (list LocalRow) :=
  _ ← console_log ("rd " +:+ JSON_stringify rowData);
  v ← read rowData key_values;
  s ← read rowData key_schema;
  mret (rows ++ [createLocal v s]).

(** [_resolveRows(result, resolve, reject)]: what is printed, and which of
    the two callbacks is called, with what. *)
Definition _resolveRows (result : string) : js (settlement (list LocalRow)) :=
  try_catch
    (res ← (([], JSON_parse result) : js json);
     rows ← match res with
            | JArr elems => forEach elems push_row []
            | _ => mret []
            end;
     mret (Resolved rows))
    (fun e => mret (Rejected (Error ("Parse Error: " +:+ message e)))).

(** The Row pushed for an element that is not [null]. *)
Definition row_of (rowData : json) : LocalRow :=
  createLocal (property rowData key_values) (property rowData key_schema).

(** The line printed for an element. *)
Definition rd_line (rowData : json) : string := "rd " +:+ JSON_stringify rowData.

(** A well-formed Row sequence: an array whose elements all carry both
    keys. *)
Definition well_formed_payload (result : string) : bool :=
  match JSON_parse result with
  | inr (JArr elems) => forallb (fun e => has_key e key_values && has_key e key_schema) elems
  | _ => false
  end.
End ResolveRows.

(** *** Facade methods: the descriptor each one passes to [Utils.generate] *)

(** The resolver of [collect] and [take] is [_resolveRows.bind(this)]. *)
Definition collect `{JSRuntime} {LocalRow : Type} (createLocal : jsvalue → jsvalue → LocalRow)
  : Utils.CallDescriptor (string → js (settlement (list LocalRow))) :=
  {| Utils.method := "collect";
     Utils.args := [];
     Utils.returnType := Utils.returns_String;
     Utils.stringify := true;
     Utils.resolver := Some (_resolveRows createLocal) |}.

Definition explain (extended : Utils.argument) : Utils.CallDescriptor unit :=
  {| Utils.method := "explain";
     Utils.args := [ {| Utils.value := extended; Utils.type := Some Utils.type_boolean;
                        Utils.optional := true |} ];
     Utils.returnType := Utils.returns_null;
     Utils.stringify := false;
     Utils.resolver := None |}.

Definition sample (withReplacement fraction seed : Utils.argument)
  : Utils.CallDescriptor unit :=
  {| Utils.method := "sample";
     Utils.args := [ {| Utils.value := withReplacement;
                        Utils.type := Some Utils.type_boolean; Utils.optional := false |};
                     {| Utils.value := fraction;
                        Utils.type := Some Utils.type_number; Utils.optional := false |};
                     {| Utils.value := seed;
                        Utils.type := Some Utils.type_number; Utils.optional := true |} ];
     Utils.returnType := Utils.returns_object "DataFrame";
     Utils.stringify := false;
     Utils.resolver := None |}.

(** [Utils.wrapArray] of [../utils.js] (not part of these sources) is a
    parameter. *)
Definition take `{JSRuntime} {LocalRow : Type} (createLocal : jsvalue → jsvalue → LocalRow)
    (wrapArray : list Utils.argument → list Utils.ArgSpec) (params : list Utils.argument)
  : Utils.CallDescriptor (string → js (settlement (list LocalRow))) :=
  {| Utils.method := "take";
     Utils.args := wrapArray params;
     Utils.returnType := Utils.returns_String;
     Utils.stringify := true;
     Utils.resolver := Some (_resolveRows createLocal) |}.

(** *** The static [DataFrame.show] *)

(** The rows [show] is documented to take: the result of [take()], each
    with its [values] and a [schema] of named [fields]. *)
Record StructField : Type := { name : string; dataType : string; nullable : bool }.
Record StructType : Type := { fields : list StructField }.
Record LocalRow : Type := { values : list json; schema : StructType }.

(** The argument [rows]: [null], [undefined] or an array of rows. *)
Inductive rows_argument : Type :=
| rows_null
| rows_undefined
| rows_array (rows : list LocalRow).

Definition seps : string :=
  "----------------------------------------------------------------------------------------------------------".

Definition blanks : string :=
  "                                                                                                          ".

(** [function justify(str,len)] *)
Definition justify (str : string) (len : nat) : string :=
  str +:+ substring 0 (len - String.length str) blanks.

Section Show.
Context `{JSRuntime}.

(** [!rows || !rows.length] *)
Definition no_data (rows : rows_argument) : bool :=
  match rows with
  | rows_null | rows_undefined | rows_array [] => true
  | rows_array (_ :: _) => false
  end.

(** [rows[0]] followed by [.schema]: reading an index of [null] or
    [undefined] throws, and so does reading [schema] of the [undefined]
    that an empty array gives. *)
Definition first_row (rows : rows_argument) : js LocalRow :=
  match rows with
  | rows_null => throw (TypeError (cannot_read "null" "0"))
  | rows_undefined => throw (TypeError (cannot_read "undefined" "0"))
  | rows_array [] => throw (TypeError (cannot_read "undefined" "schema"))
  | rows_array (row :: _) => mret row
  end.

Definition rows_of (rows : rows_argument) : list LocalRow :=
  match rows with
  | rows_array l => l
  | _ => []
  end.

(** The text of a cell: [JSON.stringify] of the value, cut to its first 17
    characters and three dots when [truncate] is set and it is longer than
    20. *)
Definition cell_text (truncate : bool) (v : json) : string :=
  let str := JSON_stringify v in
  if truncate && (20 <? String.length str) then substring 0 17 str +:+ "..." else str.

(** The body of the loop over [coln]: render the cell, push it and widen
    the column.  [JSON.stringify] of a missing value is [undefined], whose
    [length] cannot be read; a comparison with a missing width is false. *)
Definition cell (truncate : bool) (row : LocalRow) (acc : list string * list nat)
    (coln : nat) : js (list string * list nat) :=
  let '(colsStr, colWidths) := acc in
  match values row !! coln with
  | None => throw (TypeError (cannot_read "undefined" "length"))
  | Some v =>
      let str := cell_text truncate v in
      let colsStr := colsStr ++ [str] in
      let colWidths := match colWidths !! coln with
                       | Some w =>
                           if w <? String.length str
                           then <[coln := String.length str]> colWidths else colWidths
                       | None => colWidths
                       end in
      mret (colsStr, colWidths)
  end.

(** The body of the loop over [rown]. *)
Definition data_row (truncate : bool) (numCols : nat)
    (acc : list (list string) * list nat) (row : LocalRow)
  : js (list (list string) * list nat) :=
  let '(dataStr, colWidths) := acc in
  '(colsStr, colWidths) ← forEach (seq 0 numCols) (cell truncate row) ([], colWidths);
  mret (dataStr ++ [colsStr], colWidths).

(** [seps.substring(0, colWidths[i]+1) + "+"] for every column. *)
Definition separator (numCols : nat) (colWidths : list nat) : string :=
  fold_left (fun sepLine i =>
               sepLine +:+ match colWidths !! i with
                           | Some w => substring 0 (w + 1) seps
                           | None => ""
                           end +:+ "+")
            (seq 0 numCols) "+".

(** One line of the table: the texts [cells[i]], each justified to
    [colWidths[i]+1] and closed by a bar.  A missing text has no [length]
    to read. *)
Definition table_line (numCols : nat) (colWidths : list nat) (cells : list string)
  : js string :=
  forEach (seq 0 numCols)
    (fun line i =>
       match cells !! i with
       | None => throw (TypeError (cannot_read "undefined" "length"))
       | Some str =>
           mret (line +:+ match colWidths !! i with
                          | Some w => justify str (w + 1)
                          | None => str
                          end +:+ "|")
       end)
    "|".

(** [DataFrame.show = function(rows,truncate)] *)
Definition show (rows : rows_argument) (truncate : bool) : js unit :=
  _ ← (if no_data rows then console_log "No data to show" else mret tt);
  row0 ← first_row rows;
  let numCols := length (fields (schema row0)) in
  let colWidths := map (fun f => String.length (name f)) (fields (schema row0)) in
  '(dataStr, colWidths) ←
    forEach (rows_of rows) (data_row truncate numCols) ([], colWidths);
  let sepLine := separator numCols colWidths in
  _ ← console_log sepLine;
  colNames ← table_line numCols colWidths (map name (fields (schema row0)));
  _ ← console_log colNames;
  _ ← console_log sepLine;
  _ ← forEach dataStr
        (fun (_ : unit) str => line ← table_line numCols colWidths str; console_log line)
        tt;
  console_log sepLine.

(** *** The table the specification describes *)

(** The texts of the cells of a row. *)
Definition cells (truncate : bool) (numCols : nat) (row : LocalRow) : list string :=
  map (cell_text truncate) (firstn numCols (values row)).

(** Each width, or the length of the text in its column if that is
    longer. *)
Definition widen (colWidths : list nat) (texts : list string) : list nat :=
  zip_with Nat.max colWidths (map String.length texts).

(** The width of every column: the longest of the name of its field and
    its cells. *)
Definition column_widths (truncate : bool) (row0 : LocalRow) (rows : list LocalRow)
  : list nat :=
  fold_left widen
    (map (cells truncate (length (fields (schema row0)))) rows)
    (map (fun f => String.length (name f)) (fields (schema row0))).

Definition glue (l : list string) : string := fold_right String.append "" l.

(** The border line: a plus sign, and for every column dashes and a plus
    sign. *)
Definition border (colWidths : list nat) : string :=
  "+" +:+ glue (map (fun w => substring 0 (w + 1) seps +:+ "+") colWidths).

(** A line of the table: a bar, and every text justified to one more than
    the width of its column and followed by a bar. *)
Definition bordered (colWidths : list nat) (texts : list string) : string :=
  "|" +:+ glue (zip_with (fun w str => justify str (w + 1) +:+ "|") colWidths texts).

(** The lines of the table for a list of rows. *)
Definition table (truncate : bool) (rows : list LocalRow) : list string :=
  match rows with
  | [] => []
  | row0 :: _ =>
      let numCols := length (fields (schema row0)) in
      let colWidths := column_widths truncate row0 rows in
      [border colWidths; bordered colWidths (map name (fields (schema row0)));
       border colWidths]
      ++ map (fun row => bordered colWidths (cells truncate numCols row)) rows
      ++ [border colWidths]
  end.

End Show.

(** *** The resolver of [dtypes], [inputFiles] and [toJSON] *)

(** [function _resolve(result, resolve, reject)], written out in each of
    the three methods: which of the two callbacks is called, with what. *)
Definition _resolve `{JSRuntime} (result : string) : js (settlement json) :=
  try_catch
    (res ← (([], JSON_parse result) : js json);
     mret (Resolved res))
    (fun e => mret (Rejected (Error ("Parse Error: " +:+ message e)))).

(** *** [join]: the argument list built from the parameters *)

(** The values a method is called with.  An object is an instance of the
    class whose constructor is named, and stands for the remote object
    [handle]; no class here extends [Column]. *)
#[warnings="-register-all"]
Inductive param : Type :=
| PUndefined
| PNull
| PBoolean (b : bool)
| PNumber (n : number)
| PString (s : string)
| PArray (elems : list param)
| PObject (constructor_name handle : string).

(** ToBoolean, the test of [if (v)]. *)
Definition ToBoolean (v : param) : bool :=
  match v with
  | PUndefined | PNull => false
  | PBoolean b => b
  | PNumber NaN => false
  | PNumber (Infinity _) => true
  | PNumber (Finite m _) => negb (m =? 0)%Z
  | PString s => negb (String.eqb s "")
  | PArray _ | PObject _ _ => true
  end.

(** [v instanceof Column] *)
Definition instanceof_Column (v : param) : bool :=
  match v with
  | PObject constructor_name _ => String.eqb constructor_name "Column"
  | _ => false
  end.

(** The object [Utils.generate] is given: [target] is the receiver. *)
Record generate_args (A : Type) : Type := {
  method : string;
  args : list A;
  returnType : Utils.return_type
}.
Arguments method {A} _.
Arguments args {A} _.
Arguments returnType {A} _.

Section Join.
(** [Utils.wrapArray(usingColumns, Column)] of [../utils.js] (not part of
    these sources): taken as given, and so is the type of what it
    returns. *)
Context {Wrapped : Type} (wrapArray : list param → Wrapped).

(** An element of [arr]: [{value: v}] or [{value: v, type: 'string'}]. *)
Record join_arg : Type := {
  value : param + Wrapped;
  type : option string
}.

(** [DataFrame.prototype.join = function(right, usingColumns, joinType)] *)
Definition join (right usingColumns joinType : param) : generate_args join_arg :=
  let arr := [ {| value := inl right; type := None |} ] in
  let arr :=
    if ToBoolean usingColumns then
      if instanceof_Column usingColumns then
        let arr := arr ++ [ {| value := inl usingColumns; type := None |} ] in
        if ToBoolean joinType
        then arr ++ [ {| value := inl joinType; type := Some "string" |} ]
        else arr
      else
        match usingColumns with
        | PArray elems => arr ++ [ {| value := inr (wrapArray elems); type := None |} ]
        | _ => arr ++ [ {| value := inl usingColumns; type := Some "string" |} ]
        end
    else arr in
  {| method := "join"; args := arr; returnType := Utils.returns_object "DataFrame" |}.
End Join.

End DataFrame.

(** ** Row.js

    The receiver's [refIdP] and [kernelP] are the two promises of [state];
    [index] is the integer the documentation asks for, rendered into the
    template as its decimal text.  A template that holds double quotes is
    written through [dq]. *)

Module Row.

Section Methods.
Context `{JSRuntime}.

Definition NotImplementedException : jsError :=
  {| name := "NotImplementedException";
     message := "The method is currently not implemented" |}.

Definition anyNull : invocation :=
  Returns {| templateStr := "{{inRefId}}.anyNull();";
             replacements := fun refId => {[ "inRefId" := refId ]};
             _resolve := fun any => and_then RJson (JSON_parse any) |}.

Definition apply {A : Type} (index : A) : invocation :=
  Throws NotImplementedException.

Definition copy : invocation :=
  Throws NotImplementedException.

Definition equals {A : Type} (o : A) : invocation :=
  Throws NotImplementedException.

Definition fieldIndex (name : string) : invocation :=
  Returns {| templateStr := dq "{{inRefId}}.fieldIndex('{{name}}');";
             replacements := fun refId => {[ "inRefId" := refId; "name" := name ]};
             _resolve := fun index => inr (RNumber (parseInt index)) |}.

Definition get (index : Z) : invocation :=
  Returns {| templateStr := "{{inRefId}}.get({{index}});";
             replacements := fun refId =>
               {[ "inRefId" := refId; "index" := integer_text index ]};
             _resolve := fun val =>
               inr (if isFinite val then RNumber (ToNumber val) else RString val) |}.

Definition getBoolean (index : Z) : invocation :=
  Returns {| templateStr := "{{inRefId}}.getBoolean({{index}});";
             replacements := fun refId =>
               {[ "inRefId" := refId; "index" := integer_text index ]};
             _resolve := fun val => and_then RJson (JSON_parse val) |}.

Definition getByte (index : Z) : invocation :=
  Returns {| templateStr := "{{inRefId}}.getByte({{index}});";
             replacements := fun refId =>
               {[ "inRefId" := refId; "index" := integer_text index ]};
             _resolve := fun val => inr (RNumber (charCodeAt0 val)) |}.

Definition getDate {A : Type} (index : A) : invocation :=
  Throws NotImplementedException.

Definition getDecimal {A : Type} (index : A) : invocation :=
  Throws NotImplementedException.

Definition getDouble (index : Z) : invocation :=
  Returns {| templateStr := "{{inRefId}}.getDouble({{index}});";
             replacements := fun refId =>
               {[ "inRefId" := refId; "index" := integer_text index ]};
             _resolve := fun val => inr (RNumber (parseFloat val)) |}.

Definition getFloat {A : Type} (index : A) : invocation :=
  Throws NotImplementedException.

Definition getInt (index : Z) : invocation :=
  Returns {| templateStr := "{{inRefId}}.getInt({{index}});";
             replacements := fun refId =>
               {[ "inRefId" := refId; "index" := integer_text index ]};
             _resolve := fun val => inr (RNumber (parseInt val)) |}.

Definition getLong {A : Type} (index : A) : invocation :=
  Throws NotImplementedException.

Definition getShort {A : Type} (index : A) : invocation :=
  Throws NotImplementedException.

Definition getString (index : Z) : invocation :=
  Returns {| templateStr := "{{inRefId}}.getString({{index}});";
             replacements := fun refId =>
               {[ "inRefId" := refId; "index" := integer_text index ]};
             _resolve := fun val => inr (RString val) |}.

Definition getStruct {A : Type} (index : A) : invocation :=
  Throws NotImplementedException.

Definition getTimestamp {A : Type} (index : A) : invocation :=
  Throws NotImplementedException.

Definition hashCode : invocation :=
  Throws NotImplementedException.

Definition isNullAt (index : Z) : invocation :=
  Returns {| templateStr := "{{inRefId}}.isNullAt({{index}});";
             replacements := fun refId =>
               {[ "inRefId" := refId; "index" := integer_text index ]};
             _resolve := fun any => and_then RJson (JSON_parse any) |}.

Definition length : invocation :=
  Returns {| templateStr := "{{inRefId}}.length();";
             replacements := fun refId => {[ "inRefId" := refId ]};
             _resolve := fun length => inr (RNumber (parseInt length)) |}.

(** [args] is [arguments] as an array; [args[i]] past its end is
    [undefined] and leaves no slot. *)
Definition mkString (args : list string) : invocation :=
  Returns {| templateStr :=
               if List.length args =? 3 then
                 dq "{{inRefId}}.mkString('{{arg1}}', '{{arg2}}', '{{arg3}}');"
               else if List.length args =? 1 then
                 dq "{{inRefId}}.mkString('{{arg1}}');"
               else "{{inRefId}}.mkString();";
             replacements := fun refId =>
               let slot (key : string) (i : nat) (m : gmap string string) :=
                 match args !! i with
                 | Some a => <[key := a]> m
                 | None => m
                 end in
               slot "arg1" 0 (slot "arg2" 1 (slot "arg3" 2 {[ "inRefId" := refId ]}));
             _resolve := fun s => inr (RString s) |}.

Definition schema : invocation :=
  Throws NotImplementedException.

Definition size : invocation :=
  Returns {| templateStr := "{{inRefId}}.size();";
             replacements := fun refId => {[ "inRefId" := refId ]};
             _resolve := fun length => inr (RNumber (parseInt length)) |}.

End Methods.

(** A call of one of the methods the binding implements. *)
Inductive implemented : Type :=
| call_anyNull
| call_fieldIndex (name : string)
| call_get (index : Z)
| call_getBoolean (index : Z)
| call_getByte (index : Z)
| call_getDouble (index : Z)
| call_getInt (index : Z)
| call_getString (index : Z)
| call_isNullAt (index : Z)
| call_length
| call_mkString (args : list string)
| call_size.

(** The statement the specification expects for a call on the row [refId]:
    [<refId>.<method>(<arguments>);]. *)
Definition statement (call : implemented) (refId : string) : string :=
  refId +:+
  match call with
  | call_anyNull => ".anyNull();"
  | call_fieldIndex name => dq ".fieldIndex('" +:+ name +:+ dq "');"
  | call_get index => ".get(" +:+ integer_text index +:+ ");"
  | call_getBoolean index => ".getBoolean(" +:+ integer_text index +:+ ");"
  | call_getByte index => ".getByte(" +:+ integer_text index +:+ ");"
  | call_getDouble index => ".getDouble(" +:+ integer_text index +:+ ");"
  | call_getInt index => ".getInt(" +:+ integer_text index +:+ ");"
  | call_getString index => ".getString(" +:+ integer_text index +:+ ");"
  | call_isNullAt index => ".isNullAt(" +:+ integer_text index +:+ ");"
  | call_length => ".length();"
  | call_mkString [arg1] => dq ".mkString('" +:+ arg1 +:+ dq "');"
  | call_mkString [arg1; arg2; arg3] =>
      dq ".mkString('" +:+ arg1 +:+ dq "', '" +:+ arg2 +:+ dq "', '" +:+ arg3 +:+ dq "');"
  | call_mkString _ => ".mkString();"
  | call_size => ".size();"
  end.

Definition invoke `{JSRuntime} (call : implemented) : invocation :=
  match call with
  | call_anyNull => anyNull
  | call_fieldIndex name => fieldIndex name
  | call_get index => get index
  | call_getBoolean index => getBoolean index
  | call_getByte index => getByte index
  | call_getDouble index => getDouble index
  | call_getInt index => getInt index
  | call_getString index => getString index
  | call_isNullAt index => isNullAt index
  | call_length => length
  | call_mkString args => mkString args
  | call_size => size
  end.

(** A call of one of the methods the binding leaves out, with an argument
    of any kind. *)
Inductive unsupported (A : Type) : Type :=
| call_apply (index : A)
| call_copy
| call_equals (o : A)
| call_getDate (index : A)
| call_getDecimal (index : A)
| call_getFloat (index : A)
| call_getLong (index : A)
| call_getShort (index : A)
| call_getStruct (index : A)
| call_getTimestamp (index : A)
| call_hashCode
| call_schema.

Definition invoke_unsupported {A : Type} (call : unsupported A) : invocation :=
  match call with
  | call_apply _ index => apply index
  | call_copy _ => copy
  | call_equals _ o => equals o
  | call_getDate _ index => getDate index
  | call_getDecimal _ index => getDecimal index
  | call_getFloat _ index => getFloat index
  | call_getLong _ index => getLong index
  | call_getShort _ index => getShort index
  | call_getStruct _ index => getStruct index
  | call_getTimestamp _ index => getTimestamp index
  | call_hashCode _ => hashCode
  | call_schema _ => schema
  end.

End Row.

(** ** The invariant of the promise chain *)

Section Invariant.
Context {Kernel : Type}.

Definition is_resolved {A : Type} (p : promise A) : bool :=
  match p with Settled (Resolved _) => true | _ => false end.

Definition is_rejected {A : Type} (p : promise A) : bool :=
  match p with Settled (Rejected _) => true | _ => false end.

(** What the state of [Promise.all] says about the rest of the state:
    while it is pending nothing has happened and no input is rejected; once
    fulfilled both inputs are, and the one statement was submitted (unless
    the template failed); once rejected nothing was submitted and the
    returned promise is rejected with the same reason. *)
Definition consistent (c : remote_call) (st : state Kernel) : Prop :=
  match allP st with
  | Pending =>
      executed st = [] ∧ executeP st = None ∧ returned st = Pending
      ∧ is_rejected (refIdP st) = false ∧ is_rejected (kernelP st) = false
      ∧ is_resolved (refIdP st) && is_resolved (kernelP st) = false
  | Settled (Resolved (refId, kernel)) =>
      refIdP st = Settled (Resolved refId) ∧ kernelP st = Settled (Resolved kernel)
      ∧ match Utils.processTemplate (templateStr c) (replacements c refId) with
        | inr code => executed st = [(kernel, code)] ∧ executeP st ≠ None
        | inl e =>
            executed st = [] ∧ executeP st = None ∧ returned st = Settled (Rejected e)
        end
  | Settled (Rejected e) =>
      executed st = [] ∧ executeP st = None ∧ returned st = Settled (Rejected e)
      ∧ (is_rejected (refIdP st) || is_rejected (kernelP st) = true)
  end.

(** The event resolves [self.refIdP]. *)
Definition resolves_refId (ev : event Kernel) : bool :=
  match ev with RefIdSettles (Resolved _) => true | _ => false end.

End Invariant.

(** ** A runtime to compute with *)

Module Reference.

Definition code (c : ascii) : nat := nat_of_ascii c.

Definition is_whitespace (c : ascii) : bool :=
  (code c =? 32) || (code c =? 9) || (code c =? 10) || (code c =? 13).

Definition is_digit (c : ascii) : bool := (48 <=? code c) && (code c <=? 57).

Fixpoint skip_ws (s : list ascii) : list ascii :=
  match s with
  | c :: rest => if is_whitespace c then skip_ws rest else s
  | [] => []
  end.

Fixpoint span_digits (s : list ascii) : list ascii * list ascii :=
  match s with
  | c :: rest =>
      if is_digit c then let '(ds, r) := span_digits rest in (c :: ds, r) else ([], s)
  | [] => ([], [])
  end.

(** [-? int frac? exp?] of the JSON grammar; the literal and what follows. *)
Definition scan_number (s : list ascii) : option (list ascii * list ascii) :=
  let '(sign, s1) := match s with
                     | "-"%char :: r => (["-"%char], r)
                     | _ => ([], s)
                     end in
  let '(int, s2) := span_digits s1 in
  match int with
  | [] => None
  | "0"%char :: _ :: _ => None
  | _ =>
      '(frac, s3) ← match s2 with
                    | "."%char :: r =>
                        let '(ds, r') := span_digits r in
                        match ds with [] => None | _ => Some ("."%char :: ds, r') end
                    | _ => Some ([], s2)
                    end;
      '(exp, s4) ← match s3 with
                   | e :: r =>
                       if (code e =? 101) || (code e =? 69) then
                         let '(sg, r1) := match r with
                                          | g :: r1 =>
                                              if (code g =? 43) || (code g =? 45)
                                              then ([g], r1) else ([], r)
                                          | [] => ([], r)
                                          end in
                         let '(ds, r2) := span_digits r1 in
                         match ds with [] => None | _ => Some (e :: sg ++ ds, r2) end
                       else Some ([], s3)
                   | [] => Some ([], s3)
                   end;
      Some (sign ++ int ++ frac ++ exp, s4)
  end.

Definition hex_digit (c : ascii) : option nat :=
  let n := code c in
  if (48 <=? n) && (n <=? 57) then Some (n - 48)
  else if (97 <=? n) && (n <=? 102) then Some (n - 87)
  else if (65 <=? n) && (n <=? 70) then Some (n - 55)
  else None.

(** The characters of a string literal after its opening quote.  A [\u]
    escape above 255 has no counterpart in [ascii] and is refused. *)
Fixpoint scan_string (s : list ascii) : option (list ascii * list ascii) :=
  match s with
  | [] => None
  | c :: rest =>
      if code c =? 34 then Some ([], rest)
      else if code c =? 92 then
        match rest with
        | e :: rest' =>
            let simple (d : nat) :=
              '(cs, r) ← scan_string rest'; Some (ascii_of_nat d :: cs, r) in
            match code e with
            | 34 => simple 34 | 92 => simple 92 | 47 => simple 47
            | 98 => simple 8 | 102 => simple 12 | 110 => simple 10
            | 114 => simple 13 | 116 => simple 9
            | 117 =>
                match rest' with
                | h1 :: h2 :: h3 :: h4 :: rest'' =>
                    a ← hex_digit h1; b ← hex_digit h2;
                    c' ← hex_digit h3; d ← hex_digit h4;
                    if (a =? 0) && (b =? 0) then
                      '(cs, r) ← scan_string rest'';
                      Some (ascii_of_nat (16 * c' + d) :: cs, r)
                    else None
                | _ => None
                end
            | _ => None
            end
        | [] => None
        end
      else if code c <? 32 then None
      else '(cs, r) ← scan_string rest; Some (c :: cs, r)
  end.

(** Recursive descent over the text; [fuel] bounds the nesting. *)
Fixpoint parse_value (fuel : nat) (s : list ascii) : option (json * list ascii) :=
  match fuel with
  | 0 => None
  | S fuel =>
      match skip_ws s with
      | "n"%char :: "u"%char :: "l"%char :: "l"%char :: rest => Some (JNull, rest)
      | "t"%char :: "r"%char :: "u"%char :: "e"%char :: rest => Some (JBool true, rest)
      | "f"%char :: "a"%char :: "l"%char :: "s"%char :: "e"%char :: rest =>
          Some (JBool false, rest)
      | "["%char :: rest =>
          match skip_ws rest with
          | "]"%char :: rest' => Some (JArr [], rest')
          | _ => '(elems, rest') ← parse_elements fuel rest; Some (JArr elems, rest')
          end
      | "{"%char :: rest =>
          match skip_ws rest with
          | "}"%char :: rest' => Some (JObj [], rest')
          | _ => '(props, rest') ← parse_members fuel rest; Some (JObj props, rest')
          end
      | c :: rest =>
          if code c =? 34 then
            '(cs, rest') ← scan_string rest;
            Some (JStr (string_of_list_ascii cs), rest')
          else
            '(lit, rest') ← scan_number (c :: rest);
            Some (JNum (string_of_list_ascii lit), rest')
      | [] => None
      end
  end
with parse_elements (fuel : nat) (s : list ascii) : option (list json * list ascii) :=
  match fuel with
  | 0 => None
  | S fuel =>
      '(v, rest) ← parse_value fuel s;
      match skip_ws rest with
      | ","%char :: rest' =>
          '(vs, rest'') ← parse_elements fuel rest'; Some (v :: vs, rest'')
      | "]"%char :: rest' => Some ([v], rest')
      | _ => None
      end
  end
with parse_members (fuel : nat) (s : list ascii) : option (list (string * json) * list ascii) :=
  match fuel with
  | 0 => None
  | S fuel =>
      match skip_ws s with
      | c :: rest =>
          '(k, rest1) ← (if code c =? 34 then scan_string rest else None);
          match skip_ws rest1 with
          | ":"%char :: rest2 =>
              '(v, rest3) ← parse_value fuel rest2;
              let key := string_of_list_ascii k in
              match skip_ws rest3 with
              | ","%char :: rest4 =>
                  '(ps, rest5) ← parse_members fuel rest4; Some ((key, v) :: ps, rest5)
              | "}"%char :: rest4 => Some ([(key, v)], rest4)
              | _ => None
              end
          | _ => None
          end
      | _ => None
      end
  end.

Definition parse (text : string) : jsError + json :=
  let s := list_ascii_of_string text in
  match parse_value (2 * length s + 2) s with
  | Some (v, rest) =>
      match skip_ws rest with
      | [] => inr v
      | _ => inl (SyntaxError "Unexpected token in JSON")
      end
  | None => inl (SyntaxError "Unexpected token in JSON")
  end.

Definition backslash : ascii := ascii_of_nat 92.

Fixpoint escape (s : string) : string :=
  match s with
  | EmptyString => EmptyString
  | String c rest =>
      match code c with
      | 34 | 92 => String backslash (String c (escape rest))
      | 8 => String backslash (String "b" (escape rest))
      | 12 => String backslash (String "f" (escape rest))
      | 10 => String backslash (String "n" (escape rest))
      | 13 => String backslash (String "r" (escape rest))
      | 9 => String backslash (String "t" (escape rest))
      | _ => String c (escape rest)
      end
  end.

Definition quote (s : string) : string :=
  String (ascii_of_nat 34) (escape s) +:+ String (ascii_of_nat 34) EmptyString.

(** [JSON.stringify] without indentation.  A number is printed as its
    literal was written, and the properties of an object in the order of
    the list. *)
Fixpoint stringify (j : json) : string :=
  match j with
  | JNull => "null"
  | JBool true => "true"
  | JBool false => "false"
  | JNum lit => lit
  | JStr s => quote s
  | JArr elems => "[" +:+ String.concat "," (List.map stringify elems) +:+ "]"
  | JObj props =>
      "{" +:+ String.concat ","
                (List.map (fun kv => quote (fst kv) +:+ ":" +:+ stringify (snd kv)) props)
          +:+ "}"
  end.

#[export] Instance reference_runtime : JSRuntime := {|
  JSON_parse := parse;
  JSON_stringify := stringify;
  cannot_read := fun base key =>
    "Cannot read properties of " +:+ base +:+ " (reading '" +:+ key +:+ "')";
  array_values := VBuiltin "Array.prototype.values"
|}.

End Reference.

(** ** RowFactory *)

Module RowFactory.

(** Modelled from the spec: [RowFactory.createLocal] of [./RowFactory],
    which is not part of these sources.  Section 4.4: for each record,
    construct a local Row value from [values] and [schema]. *)
Record LocalRow : Type := { values : jsvalue; schema : jsvalue }.

Definition createLocal (v s : jsvalue) : LocalRow := {| values := v; schema := s |}.

End RowFactory.

(** [n] spaces. *)
Definition spaces (n : nat) : string := string_of_list_ascii (repeat " "%char n).

(** ** Sample inputs *)

Definition people : DataFrame.StructType :=
  {| DataFrame.fields :=
       [ {| DataFrame.name := "name"; DataFrame.dataType := "string";
            DataFrame.nullable := false |};
         {| DataFrame.name := "age"; DataFrame.dataType := "integer";
            DataFrame.nullable := false |} ] |}.

Definition alice : DataFrame.LocalRow :=
  {| DataFrame.values := [JStr "Alice"; JNum "30"]; DataFrame.schema := people |}.

Definition bartholomew : DataFrame.LocalRow :=
  {| DataFrame.values := [JStr "Bartholomew the Second of Nowhere"; JNum "4"];
     DataFrame.schema := people |}.

Definition two_people : list DataFrame.LocalRow := [alice; bartholomew].

(** One column named [h] and one row, whose cell is a string of 120
    characters. *)
Definition wide_rows : list DataFrame.LocalRow :=
  [ {| DataFrame.values := [JStr (string_of_list_ascii (repeat "x"%char 120))];
       DataFrame.schema :=
         {| DataFrame.fields :=
              [ {| DataFrame.name := "h"; DataFrame.dataType := "string";
                   DataFrame.nullable := true |} ] |} |} ].

(** The payload of the end-to-end scenario of the specification. *)
Definition alice_payload : string :=
  dq "[{'values':['Alice',30],'schema':{'fields':[{'name':'name','dataType':'string','nullable':false},{'name':'age','dataType':'integer','nullable':false}]}}]".

(** * Properties *)

(** ** The row-decoding resolver *)

Section ResolveRowsProperties.
Context `{JSRuntime} {LocalRow : Type} (createLocal : jsvalue → jsvalue → LocalRow).

Lemma read_returns (rowData : json) (k : row_key) :
  is_null rowData = false → read rowData k = mret (property rowData k).
Proof. by destruct rowData. Qed.

Lemma read_null (k : row_key) :
  read JNull k = throw (TypeError (cannot_read "null" (key_name k))).
Proof. done. Qed.

Lemma push_row_returns (rows : list LocalRow) (rowData : json) :
  is_null rowData = false →
  DataFrame.push_row createLocal rows rowData =
  ([DataFrame.rd_line rowData], inr (rows ++ [DataFrame.row_of createLocal rowData])).
Proof.
  intros Hnn. unfold DataFrame.push_row. by rewrite !(read_returns _ _ Hnn).
Qed.

Lemma push_row_null (rows : list LocalRow) :
  DataFrame.push_row createLocal rows JNull =
  ([DataFrame.rd_line JNull], inl (TypeError (cannot_read "null" "values"))).
Proof. done. Qed.

(** The loop over elements none of which is [null] pushes one Row each. *)
Lemma forEach_push_row_returns (elems : list json) (acc : list LocalRow) :
  existsb is_null elems = false →
  forEach elems (DataFrame.push_row createLocal) acc =
  (map DataFrame.rd_line elems, inr (acc ++ map (DataFrame.row_of createLocal) elems)).
Proof.
  revert acc. induction elems as [|rowData rest IH]; intros acc Hnn.
  - cbn. by rewrite app_nil_r.
  - apply orb_false_elim in Hnn as [Hhd Htl].
    cbn [forEach]. rewrite (push_row_returns _ _ Hhd).
    cbn [mbind js_bind]. rewrite (IH _ Htl). cbn. by rewrite <- app_assoc.
Qed.

(** The loop stops at the first [null], with the [TypeError] of reading
    its [values]. *)
Lemma forEach_push_row_throws (elems : list json) (acc : list LocalRow) :
  existsb is_null elems = true →
  completion (forEach elems (DataFrame.push_row createLocal) acc) =
  inl (TypeError (cannot_read "null" "values")).
Proof.
  revert acc. induction elems as [|rowData rest IH]; intros acc Hn.
  - done.
  - cbn [forEach]. destruct (is_null rowData) eqn:Hhd.
    + by destruct rowData.
    + rewrite (push_row_returns _ _ Hhd). cbn [mbind js_bind].
      cbn in Hn. rewrite Hhd in Hn. specialize (IH (acc ++ [DataFrame.row_of createLocal rowData]) Hn).
      destruct (forEach rest _ _) as [out [e|rows]]; cbn in *; congruence.
Qed.

(** An array without [null] resolves with one Row per element. *)
Lemma resolveRows_array (result : string) (elems : list json) :
  JSON_parse result = inr (JArr elems) → existsb is_null elems = false →
  completion (DataFrame._resolveRows createLocal result) =
  inr (Resolved (map (DataFrame.row_of createLocal) elems)).
Proof.
  intros Hparse Hn. unfold DataFrame._resolveRows. rewrite Hparse.
  cbn [mbind js_bind]. by rewrite (forEach_push_row_returns elems [] Hn).
Qed.

(** C1 (amended): the resolver used by [collect] and [take] calls exactly
    one of its two callbacks.  It rejects, with the Error [Parse Error: ...]
    and no rows, exactly when [JSON.parse] throws or the parsed array holds
    a [null].  A parsed value that is not an array resolves with the empty
    list, and every other array with one Row per element: an element
    lacking [values] or [schema] gives [createLocal] an [undefined] there. *)
Theorem resolveRows_settlement (result : string) :
  completion (DataFrame._resolveRows createLocal result) =
  inr (match JSON_parse result with
       | inl e => Rejected (Error ("Parse Error: " +:+ message e))
       | inr (JArr elems) =>
           if existsb is_null elems
           then Rejected (Error ("Parse Error: " +:+ cannot_read "null" "values"))
           else Resolved (map (DataFrame.row_of createLocal) elems)
       | inr _ => Resolved []
       end).
Proof.
  unfold DataFrame._resolveRows.
  destruct (JSON_parse result) as [e|res]; [done|].
  destruct res as [| | | |elems|]; try done.
  cbn [mbind js_bind]. destruct (existsb is_null elems) eqn:Hn.
  - pose proof (forEach_push_row_throws elems [] Hn) as Hthrow.
    destruct (forEach elems _ _) as [out [e|rows]]; cbn in *; [|done].
    by injection Hthrow as ->.
  - by rewrite (forEach_push_row_returns elems [] Hn).
Qed.

Lemma well_formed_no_null (elems : list json) :
  forallb (fun e => has_key e key_values && has_key e key_schema) elems = true →
  existsb is_null elems = false.
Proof.
  induction elems as [|e rest IH]; [done|]. cbn.
  intros [[Hv _]%andb_prop Hrest]%andb_prop.
  rewrite (IH Hrest). by destruct e.
Qed.

Lemma has_key_property (rowData : json) (k : row_key) :
  has_key rowData k = true →
  ∃ props v, rowData = JObj props ∧ own_property props (key_name k) = Some v
             ∧ property rowData k = VJson v.
Proof.
  destruct rowData as [| | | | |props]; try done. cbn.
  intros [v Hv]%bool_decide_eq_true. exists props, v. by rewrite Hv.
Qed.

(** C2: for a well-formed Row sequence (a JSON array whose elements all
    have a [values] and a [schema] key) the resolver resolves with as many
    Rows as the array has elements; the Row at each position is built from
    the [values] and the [schema] of the element at that position. *)
Theorem resolveRows_well_formed (result : string) :
  DataFrame.well_formed_payload result = true →
  ∃ elems rows,
    JSON_parse result = inr (JArr elems)
    ∧ completion (DataFrame._resolveRows createLocal result) = inr (Resolved rows)
    ∧ length rows = length elems
    ∧ ∀ i rowData, elems !! i = Some rowData →
        ∃ props v s,
          rowData = JObj props
          ∧ own_property props "values" = Some v
          ∧ own_property props "schema" = Some s
          ∧ rows !! i = Some (createLocal (VJson v) (VJson s)).
Proof.
  unfold DataFrame.well_formed_payload. intros Hwf.
  destruct (JSON_parse result) as [e|res] eqn:Hparse; [done|].
  destruct res as [| | | |elems|]; try done.
  pose proof (resolveRows_array result elems Hparse (well_formed_no_null _ Hwf)) as Hset.
  exists elems, (map (DataFrame.row_of createLocal) elems).
  repeat split; [done|by rewrite length_map|].
  intros i rowData Hi.
  rewrite forallb_forall in Hwf.
  assert (In rowData elems) as Hin
    by (apply list_elem_of_In, list_elem_of_lookup; eauto).
  apply Hwf in Hin as [Hv Hs]%andb_prop.
  destruct (has_key_property _ _ Hv) as (props & v & -> & Hpv & Hv').
  destruct (has_key_property _ _ Hs) as (props' & s & [= <-] & Hps & Hs').
  exists props, v, s. repeat split; try done.
  rewrite list_lookup_fmap, Hi. cbn. unfold DataFrame.row_of.
  by rewrite Hv', Hs'.
Qed.

End ResolveRowsProperties.

Lemma resolveRows_well_formed_witness :
  DataFrame.well_formed_payload (H := Reference.reference_runtime) alice_payload = true
  ∧ ∃ elems rows,
      Reference.parse alice_payload = inr (JArr elems)
      ∧ completion (DataFrame._resolveRows (H := Reference.reference_runtime)
                      RowFactory.createLocal alice_payload) = inr (Resolved rows)
      ∧ length rows = length elems
      ∧ ∀ i rowData, elems !! i = Some rowData →
          ∃ props v s,
            rowData = JObj props
            ∧ own_property props "values" = Some v
            ∧ own_property props "schema" = Some s
            ∧ rows !! i = Some (RowFactory.createLocal (VJson v) (VJson s)).
Proof.
  split; [vm_compute; reflexivity|].
  apply (resolveRows_well_formed (H := Reference.reference_runtime)
           RowFactory.createLocal alice_payload).
  vm_compute; reflexivity.
Defined.

(** A payload that is not an array, and an array whose element has neither
    key, are not well formed, yet the resolver resolves: with no Row, and
    with a Row made of two [undefined]. *)
Lemma resolveRows_malformed_resolves :
  DataFrame.well_formed_payload (H := Reference.reference_runtime) (dq "{}") = false
  ∧ DataFrame._resolveRows (H := Reference.reference_runtime)
      RowFactory.createLocal (dq "{}")
    = ([], inr (Resolved []))
  ∧ DataFrame.well_formed_payload (H := Reference.reference_runtime) (dq "[{}]") = false
  ∧ DataFrame._resolveRows (H := Reference.reference_runtime)
      RowFactory.createLocal (dq "[{}]")
    = (["rd {}"], inr (Resolved [RowFactory.createLocal VUndefined VUndefined])).
Proof. vm_compute. repeat split. Qed.

(** ** Template substitution *)

Section SubstituteProperties.
Variable slots : gmap string string.

Lemma substitute_outside (c : ascii) (rest : list ascii) :
  Utils.substitute slots None (c :: rest) =
  match rest with
  | c' :: rest' =>
      if Ascii.eqb c "{" && Ascii.eqb c' "{" then Utils.substitute slots (Some []) rest'
      else and_then (cons c) (Utils.substitute slots None rest)
  | [] => inr [c]
  end.
Proof. by destruct rest. Qed.

Lemma substitute_inside (name : list ascii) (c : ascii) (rest : list ascii) :
  Utils.substitute slots (Some name) (c :: rest) =
  match rest with
  | c' :: rest' =>
      if Ascii.eqb c "}" && Ascii.eqb c' "}" then
        match slots !! string_of_list_ascii name with
        | Some text =>
            and_then (app (list_ascii_of_string text)) (Utils.substitute slots None rest')
        | None =>
            inl (Error ("No replacement for {{" +:+ string_of_list_ascii name +:+ "}}"))
        end
      else Utils.substitute slots (Some (name ++ [c])) rest
  | [] => inr ("{"%char :: "{"%char :: name ++ [c])
  end.
Proof. by destruct rest. Qed.

Lemma substitute_literal (text rest : list ascii) :
  Utils.lacks "{" text = true →
  Utils.substitute slots None (text ++ rest) = and_then (app text) (Utils.substitute slots None rest).
Proof.
  induction text as [|c text IH]; intros Hno.
  - cbn. by destruct (Utils.substitute slots None rest).
  - apply andb_prop in Hno as [Hc%negb_true_iff Hno].
    cbn [app]. rewrite substitute_outside, Hc.
    cbn [andb]. rewrite IH by done. destruct (text ++ rest) as [|c' rest'] eqn:Heq.
    + apply app_eq_nil in Heq as [-> ->]. done.
    + by destruct (Utils.substitute slots None rest).
Qed.

Lemma substitute_name (name acc rest : list ascii) :
  Utils.lacks "}" name = true →
  Utils.substitute slots (Some acc) (name ++ "}"%char :: "}"%char :: rest) =
  match slots !! string_of_list_ascii (acc ++ name) with
  | Some text => and_then (app (list_ascii_of_string text)) (Utils.substitute slots None rest)
  | None => inl (Error ("No replacement for {{" +:+ string_of_list_ascii (acc ++ name) +:+ "}}"))
  end.
Proof.
  revert acc. induction name as [|c name IH]; intros acc Hno.
  - rewrite app_nil_r. done.
  - apply andb_prop in Hno as [Hc%negb_true_iff Hno].
    cbn [app]. rewrite substitute_inside, Hc.
    cbn [andb]. rewrite IH by done. rewrite <- app_assoc. cbn [app].
    by destruct name.
Qed.

Lemma substitute_flatten (segs : list Utils.segment) :
  forallb Utils.plain segs = true →
  Utils.substitute slots None (Utils.flatten segs) = Utils.fill slots segs.
Proof.
  induction segs as [|seg segs IH]; [done|].
  intros [Hseg Hsegs]%andb_prop. specialize (IH Hsegs).
  unfold Utils.flatten in *. cbn [map concat Utils.fill]. destruct seg as [text|name].
  - by rewrite substitute_literal, IH.
  - cbn [app]. rewrite <- app_assoc. cbn [app].
    change (Utils.substitute slots None ("{"%char :: "{"%char :: ?l))
      with (Utils.substitute slots (Some []) l).
    rewrite substitute_name by done. cbn [app]. by rewrite IH.
Qed.
(** A template that reads as plain segments is rendered segment by
    segment. *)
Lemma processTemplate_segments (templateStr : string) (segs : list Utils.segment) :
  list_ascii_of_string templateStr = Utils.flatten segs →
  forallb Utils.plain segs = true →
  Utils.processTemplate templateStr slots =
  and_then string_of_list_ascii (Utils.fill slots segs).
Proof.
  intros Hsegs Hplain. unfold Utils.processTemplate.
  by rewrite Hsegs, substitute_flatten.
Qed.

End SubstituteProperties.

Lemma list_ascii_of_string_app (s1 s2 : string) :
  list_ascii_of_string (s1 +:+ s2) = list_ascii_of_string s1 ++ list_ascii_of_string s2.
Proof.
  induction s1 as [|c s1 IH]; [done|].
  change (c :: list_ascii_of_string (s1 +:+ s2)
          = c :: list_ascii_of_string s1 ++ list_ascii_of_string s2).
  by rewrite IH.
Qed.

Lemma string_of_list_ascii_eq (l : list ascii) (s : string) :
  l = list_ascii_of_string s → string_of_list_ascii l = s.
Proof. intros ->. apply string_of_list_ascii_of_string. Qed.

(** ** Numbers: parsing the text of an integer *)

Local Abbreviation chars := list_ascii_of_string.

Local Ltac eval_digit :=
  match goal with
  | |- context [radix_digit ?R ?c] =>
      let v := eval vm_compute in (radix_digit R c) in
      change (radix_digit R c) with v
  end.

Lemma digits_prefix_acc (d : uint) (acc : positive) (count : nat) :
  digits_prefix 10 (chars (NilEmpty.string_of_uint d)) (Z.pos acc) count
  = (Z.pos (Pos.of_uint_acc d acc), count + nb_digits d, []).
Proof.
  revert acc count. induction d as [|d IH|d IH|d IH|d IH|d IH|d IH|d IH|d IH|d IH|d IH];
    intros acc count;
    [cbn; by rewrite Nat.add_0_r|..];
    cbn [NilEmpty.string_of_uint list_ascii_of_string digits_prefix];
    eval_digit; cbn [nb_digits Pos.of_uint_acc];
    match goal with
    | |- digits_prefix _ _ ?a _ = (Z.pos (Pos.of_uint_acc _ ?p), _, _) =>
        replace a with (Z.pos p) by lia
    end; rewrite IH; do 2 f_equal; lia.
Qed.

Lemma digits_prefix_uint (d : uint) (count : nat) :
  digits_prefix 10 (chars (NilEmpty.string_of_uint d)) 0 count
  = (Z.of_N (Pos.of_uint d), count + nb_digits d, []).
Proof.
  revert count. induction d as [|d IH|d IH|d IH|d IH|d IH|d IH|d IH|d IH|d IH|d IH];
    intros count;
    [cbn; by rewrite Nat.add_0_r|..];
    cbn [NilEmpty.string_of_uint list_ascii_of_string digits_prefix];
    eval_digit; cbn [nb_digits Pos.of_uint Z.of_N];
    [rewrite IH; do 2 f_equal; lia|..];
    match goal with
    | |- digits_prefix _ _ ?a _ = (Z.pos (Pos.of_uint_acc _ ?p), _, _) =>
        change a with (Z.pos p)
    end; rewrite digits_prefix_acc; do 2 f_equal; lia.
Qed.

(** The text of a positive number: its digits, the first of which is
    neither white space, nor a sign, nor a letter. *)
Lemma positive_text (p : positive) :
  ∃ c rest,
    chars (NilEmpty.string_of_uint (Pos.to_uint p)) = c :: rest
    ∧ radix_digit 10 c ≠ None
    ∧ (∀ count, digits_prefix 10 (c :: rest) 0 count = (Z.pos p, count + nb_digits (Pos.to_uint p), []))
    ∧ nb_digits (Pos.to_uint p) ≠ 0
    ∧ match rest with x :: _ => radix_digit 10 x ≠ None | [] => True end.
Proof.
  pose proof (DecimalPos.Unsigned.to_uint_nonnil p) as Hnn.
  pose proof (DecimalPos.Unsigned.of_to p) as Hof.
  pose proof (fun count => digits_prefix_uint (Pos.to_uint p) count) as Hscan.
  rewrite Hof in Hscan. cbn [Z.of_N] in Hscan.
  destruct (Pos.to_uint p) as [|d|d|d|d|d|d|d|d|d|d]; [done|..];
    (eexists _, _; split; [reflexivity|]; split; [by vm_compute|]; split; [exact Hscan|];
     split; [done|]);
    destruct d; done.
Qed.

(** What a decimal digit is not. *)
Lemma digit_char (c : ascii) :
  radix_digit 10 c ≠ None →
  is_StrWhiteSpaceChar c = false
  ∧ Ascii.eqb c "-" = false ∧ Ascii.eqb c "+" = false ∧ Ascii.eqb c "." = false
  ∧ Ascii.eqb c "I" = false
  ∧ is_char c "x" "X" = false ∧ is_char c "e" "E" = false.
Proof.
  destruct c as [[] [] [] [] [] [] [] []]; vm_compute; intros Hd;
    first [done | by repeat split].
Qed.

Lemma nilzero_chars (d : uint) :
  d ≠ Nil → NilZero.string_of_uint d = NilEmpty.string_of_uint d.
Proof. by destruct d. Qed.

(** The text of an integer: a minus sign if it is negative, then the
    digits of its absolute value, at least one. *)
Lemma integer_text_chars (z : Z) :
  ∃ c rest n,
    chars (integer_text z) = (if (z <? 0)%Z then ["-"%char] else []) ++ c :: rest
    ∧ radix_digit 10 c ≠ None
    ∧ (∀ count, digits_prefix 10 (c :: rest) 0 count = (Z.abs z, count + S n, []))
    ∧ match rest with x :: _ => radix_digit 10 x ≠ None | [] => True end.
Proof.
  destruct z as [|p|p].
  - exists "0"%char, [], 0. repeat split; try done.
    intros count. cbn [digits_prefix]. eval_digit. cbn [Z.abs]. do 2 f_equal. lia.
  - destruct (positive_text p) as (c & rest & Hc & Hd & Hscan & Hn & Hrest).
    exists c, rest, (pred (nb_digits (Pos.to_uint p))). repeat split; try done.
    + unfold integer_text. cbn [Z.to_int NilZero.string_of_int].
      by rewrite nilzero_chars by apply DecimalPos.Unsigned.to_uint_nonnil.
    + intros count. rewrite Hscan. cbn [Z.abs]. do 2 f_equal. lia.
  - destruct (positive_text p) as (c & rest & Hc & Hd & Hscan & Hn & Hrest).
    exists c, rest, (pred (nb_digits (Pos.to_uint p))). repeat split; try done.
    + unfold integer_text. cbn [Z.to_int NilZero.string_of_int].
      rewrite nilzero_chars by apply DecimalPos.Unsigned.to_uint_nonnil.
      cbn [list_ascii_of_string]. by rewrite Hc.
    + intros count. rewrite Hscan. cbn [Z.abs]. do 2 f_equal. lia.
Qed.

Lemma signed_abs (z : Z) : signed (z <? 0)%Z (Z.abs z) = z.
Proof. unfold signed. destruct (Z.ltb_spec z 0); lia. Qed.

(** An integer of at most 53 bits is a Number: rounding leaves it as it
    is. *)
Lemma binary64_integer (z : Z) : (Z.abs z <= 2 ^ 53)%Z → binary64 z 0 = Finite z 0.
Proof.
  intros Hz. unfold binary64.
  destruct (Z.eqb_spec z 0) as [->|Hnz]; [done|].
  change (Z.max 0 0) with 0%Z. change (Z.max 0 (- 0)) with 0%Z.
  rewrite Z.pow_0_r, Z.mul_1_r.
  set (num := Z.abs z) in *.
  assert (0 < num)%Z as Hpos by lia.
  pose proof (Z.log2_spec num Hpos) as [Hlo Hhi].
  pose proof (Z.log2_nonneg num) as Hnn.
  set (a := Z.log2 num) in *.
  assert (a <= 53)%Z as Ha.
  { destruct (Z.le_gt_cases a 53) as [|Hgt]; [done|].
    assert (2 ^ 54 <= 2 ^ a)%Z by (apply Z.pow_le_mono_r; lia). lia. }
  assert (last_place num 1 = a - 52)%Z as Hp.
  { unfold last_place. change (Z.log2 1) with 0%Z. rewrite Z.sub_0_r. fold a.
    unfold scaled_numerator, scaled_denominator. rewrite Z.mul_1_l.
    rewrite <- Z.pow_add_r by lia.
    assert ((num * 2 ^ Z.max 0 (- (a - 52)) <? 2 ^ (52 + Z.max 0 (a - 52)))%Z = false)
      as ->.
    { apply Z.ltb_ge. destruct (Z.le_gt_cases a 52).
      - rewrite (Z.max_r 0 (- (a - 52))), (Z.max_l 0 (a - 52)), Z.add_0_r by lia.
        replace 52%Z with (a + (52 - a))%Z at 1 by lia. rewrite Z.pow_add_r by lia.
        replace (- (a - 52))%Z with (52 - a)%Z by lia.
        apply Z.mul_le_mono_nonneg_r; [apply Z.pow_nonneg; lia|done].
      - rewrite (Z.max_l 0 (- (a - 52))), (Z.max_r 0 (a - 52)) by lia.
        replace (52 + (a - 52))%Z with a by lia. lia. }
    lia. }
  rewrite Hp. unfold scaled_numerator, scaled_denominator. rewrite Z.mul_1_l.
  destruct (Z.le_gt_cases a 52) as [Hle|Hgt].
  - rewrite (Z.max_r 0 (- (a - 52))), (Z.max_l 0 (a - 52)), Z.pow_0_r by lia.
    replace (- (a - 52))%Z with (52 - a)%Z by lia.
    set (k := (52 - a)%Z) in *.
    assert (0 < 2 ^ k)%Z as Hk by (apply Z.pow_pos_nonneg; lia).
    assert (round_half_even (num * 2 ^ k) 1 = num * 2 ^ k)%Z as ->.
    { unfold round_half_even. by rewrite Z.mod_1_r, Z.div_1_r. }
    assert (num * 2 ^ k < 2 ^ 53)%Z as Hq.
    { replace 53%Z with ((a + 1) + k)%Z by lia. rewrite Z.pow_add_r by lia.
      by apply Z.mul_lt_mono_pos_r. }
    assert (((0 <=? a - 52) && (2 ^ 1024 <=? num * 2 ^ k * 2 ^ (a - 52)))%Z = false) as ->.
    { destruct (Z.leb_spec 0 (a - 52)); [|done]. cbn [andb]. apply Z.leb_gt.
      replace (a - 52)%Z with 0%Z by lia. rewrite Z.pow_0_r, Z.mul_1_r.
      assert (2 ^ 53 < 2 ^ 1024)%Z by done. lia. }
    assert ((num * 2 ^ k =? 0)%Z = false) as -> by (apply Z.eqb_neq; lia).
    destruct (Z.leb_spec 0 (a - 52)).
    + replace (a - 52)%Z with 0%Z by lia. replace k with 0%Z by lia.
      rewrite !Z.pow_0_r, !Z.mul_1_r. by rewrite signed_abs.
    + replace (- (a - 52))%Z with k by lia.
      rewrite Z.mod_mul, Z.div_mul by lia. cbn [Z.eqb]. by rewrite signed_abs.
  - assert (a = 53)%Z as Ha53 by lia. rewrite Ha53 in *.
    assert (num = 2 ^ 53)%Z as Hnum by lia.
    change (Z.max 0 (- (53 - 52))) with 0%Z. change (Z.max 0 (53 - 52)) with 1%Z.
    rewrite Hnum. change (53 - 52)%Z with 1%Z.
    assert (round_half_even (2 ^ 53 * 2 ^ 0) (2 ^ 1) = 2 ^ 52)%Z as -> by done.
    assert (((0 <=? 1) && (2 ^ 1024 <=? 2 ^ 52 * 2 ^ 1))%Z = false) as -> by done.
    change (2 ^ 52 =? 0)%Z with false. change (0 <=? 1)%Z with true. cbv iota.
    change (2 ^ 52 * 2 ^ 1)%Z with (2 ^ 53)%Z. rewrite <- Hnum. by rewrite signed_abs.
Qed.

Lemma sign_prefix_integer_text (z : Z) (c : ascii) (rest : list ascii) :
  radix_digit 10 c ≠ None →
  sign_prefix (trim_start ((if (z <? 0)%Z then ["-"%char] else []) ++ c :: rest))
  = ((z <? 0)%Z, c :: rest).
Proof.
  intros Hc. destruct (digit_char c Hc) as (Hws & Hminus & Hplus & _).
  destruct (z <? 0)%Z; cbn [app trim_start].
  - change (is_StrWhiteSpaceChar "-") with false. cbn [sign_prefix].
    by change (Ascii.eqb "-" "-") with true.
  - rewrite Hws. cbn [sign_prefix]. by rewrite Hminus, Hplus.
Qed.

Lemma parseInt_integer_text (z : Z) :
  (Z.abs z <= 2 ^ 53)%Z → parseInt (integer_text z) = Finite z 0.
Proof.
  intros Hz.
  destruct (integer_text_chars z) as (c & rest & n & Hchars & Hc & Hscan & Hrest).
  unfold parseInt. rewrite Hchars, (sign_prefix_integer_text z c rest Hc).
  assert (radix_prefix (c :: rest) = (10%Z, c :: rest)) as ->.
  { destruct rest as [|x rest0]; [done|]. cbn [radix_prefix].
    destruct (digit_char x Hrest) as (_ & _ & _ & _ & _ & -> & _).
    by rewrite andb_false_r. }
  rewrite Hscan. cbn [Nat.add Nat.eqb RoundMV]. by rewrite signed_abs, binary64_integer.
Qed.


(** *** Texts of digits *)



(** *** The characters of a decimal literal *)







(** *** The text of an integer as a StringNumericLiteral *)



(** *** Digits followed by other text *)

(** Digits scanned to the end of a text are scanned alike before a
    character that is no digit. *)
Lemma digits_prefix_app (R : Z) (l tail : list ascii) (acc v : Z) (count n : nat) :
  digits_prefix R l acc count = (v, n, []) →
  match tail with c :: _ => radix_digit R c = None | [] => True end →
  digits_prefix R (l ++ tail) acc count = (v, n, tail).
Proof.
  revert acc count. induction l as [|c l IH]; intros acc count Hscan Htail.
  - cbn in Hscan. injection Hscan as <- <-. cbn [app].
    destruct tail as [|c tail]; [done|]. cbn [digits_prefix]. by rewrite Htail.
  - cbn [app digits_prefix] in *. destruct (radix_digit R c); [by apply IH|done].
Qed.

(** [parseInt] reads the integer a text starts with and ignores what
    follows it. *)
Lemma parseInt_integer_prefix (z : Z) (c : ascii) (rest : string) :
  (Z.abs z <= 2 ^ 53)%Z →
  is_digit_char c = false →
  (z = 0%Z → is_char c "x" "X" = false) →
  parseInt (integer_text z +:+ String c rest) = Finite z 0.
Proof.
  intros Hz Hc Hx.
  destruct (integer_text_chars z) as (d & ds & n & Hchars & Hd & Hscan & Hds).
  unfold parseInt. rewrite list_ascii_of_string_app, Hchars, <- app_assoc.
  change ((d :: ds) ++ chars (String c rest)) with (d :: ds ++ c :: chars rest).
  rewrite (sign_prefix_integer_text z d _ Hd).
  assert (radix_prefix (d :: ds ++ c :: chars rest) = (10%Z, d :: ds ++ c :: chars rest))
    as ->.
  { destruct ds as [|x ds]; cbn [app radix_prefix].
    - destruct (Ascii.eqb_spec d "0") as [->|]; [|done].
      rewrite Hx; [done|]. specialize (Hscan 0).
      change (digits_prefix 10 ["0"%char] 0 0) with (0%Z, 1, @nil ascii) in Hscan.
      injection Hscan as Hzero _. lia.
    - destruct (digit_char x Hds) as (_ & _ & _ & _ & _ & -> & _).
      by rewrite andb_false_r. }
  change (d :: ds ++ c :: chars rest) with ((d :: ds) ++ c :: chars rest).
  rewrite (digits_prefix_app 10 (d :: ds) (c :: chars rest) 0 _ 0 _ (Hscan 0)).
  - cbn [Nat.add Nat.eqb RoundMV]. by rewrite signed_abs, binary64_integer.
  - unfold is_digit_char in Hc. by destruct (radix_digit 10 c).
Qed.

(** *** White space *)

Lemma trim_start_white_space (l : list ascii) :
  forallb is_StrWhiteSpaceChar l = true → trim_start l = [].
Proof.
  induction l as [|c l IH]; [done|]. cbn [forallb trim_start].
  intros [-> Hl]%andb_prop. by apply IH.
Qed.

Lemma ToNumber_white_space (s : string) :
  forallb is_StrWhiteSpaceChar (chars s) = true → ToNumber s = Finite 0 0.
Proof.
  intros Hs. unfold ToNumber, StringNumericValue, trim.
  by rewrite (trim_start_white_space _ Hs).
Qed.

(** ** The promise chain of a Row call *)

Section DispatchProperties.
Context {Kernel : Type}.
Implicit Types (c : remote_call) (st : state Kernel) (ev : event Kernel).

Lemma initial_consistent c : consistent (Kernel := Kernel) c initial.
Proof. by cbn. Qed.

Lemma step_consistent c st ev : consistent c st → consistent c (step c st ev).
Proof.
  destruct st as [r k a ex ep ret].
  unfold consistent, step, react, verifyResult, then_callback, resolve, reject, settle.
  generalize (Utils.processTemplate (templateStr c)) (replacements c) (_resolve c).
  intros render slots coerce. cbn.
  destruct a as [|[[id kk]|e]]; cbn;
    (destruct ev as [s|s|s]; cbn);
    (destruct r as [|[?|?]]; cbn);
    (destruct k as [|[?|?]]; cbn);
    (try destruct s; cbn);
    repeat match goal with
           | |- context [match ?x with inl _ => _ | inr _ => _ end] =>
               destruct x eqn:?; cbn
           | |- context [match ?x with Some _ => _ | None => _ end] =>
               destruct x as [[|?]|]; cbn
           end;
    intros; destruct_and?; simplify_eq/=; repeat split; done.
Qed.

Lemma run_from_consistent c st (trace : list (event Kernel)) :
  consistent c st → consistent c (fold_left (step c) trace st).
Proof.
  revert st. induction trace as [|ev trace IH]; intros st Hst; [done|].
  cbn. by apply IH, step_consistent.
Qed.

Lemma run_consistent c (trace : list (event Kernel)) : consistent c (run c trace).
Proof. apply run_from_consistent, initial_consistent. Qed.

(** A promise that no event resolves is never resolved. *)
Lemma run_from_refId_unresolved c st (trace : list (event Kernel)) :
  is_resolved (refIdP st) = false →
  existsb resolves_refId trace = false →
  is_resolved (refIdP (fold_left (step c) trace st)) = false.
Proof.
  revert st. induction trace as [|ev trace IH]; intros st Hst Htr; [done|].
  cbn in *. apply orb_false_elim in Htr as [Hev Htr].
  apply IH; [|done].
  destruct st as [r k a ex ep ret].
  unfold step, react, verifyResult, then_callback, resolve, reject, settle.
  generalize (Utils.processTemplate (templateStr c)) (replacements c) (_resolve c).
  intros render slots coerce. cbn in *.
  destruct ev as [[?|?]|s|s]; try done; cbn;
    (destruct r as [|[?|?]]; try done; cbn);
    (destruct a as [|[[? ?]|?]]; cbn);
    (destruct k as [|[?|?]]; cbn);
    (try destruct s; cbn);
    repeat match goal with
           | |- context [match ?x with inl _ => _ | inr _ => _ end] =>
               destruct x eqn:?; cbn
           | |- context [match ?x with Some _ => _ | None => _ end] =>
               destruct x as [[|?]|]; cbn
           end; done.
Qed.

(** What a consistent state says about the statements submitted. *)
Lemma consistent_executed c st :
  consistent c st →
  (executed st ≠ [] →
   ∃ refId kernel code,
     refIdP st = Settled (Resolved refId) ∧ kernelP st = Settled (Resolved kernel)
     ∧ Utils.processTemplate (templateStr c) (replacements c refId) = inr code
     ∧ executed st = [(kernel, code)])
  ∧ (is_rejected (refIdP st) || is_rejected (kernelP st) = true →
     executed st = [] ∧ ∃ e, returned st = Settled (Rejected e)).
Proof.
  unfold consistent. destruct st as [r k a ex ep ret]; cbn.
  destruct a as [|[[id kk]|e]]; cbn.
  - intros (-> & _ & _ & Hr & Hk & _). split; [done|]. by rewrite Hr, Hk.
  - intros (-> & -> & Hc). split; [|done].
    destruct (Utils.processTemplate _ _) as [e|code] eqn:Hcode.
    + by destruct Hc as (-> & _).
    + destruct Hc as (-> & _). eauto 10.
  - intros (-> & _ & -> & _). split; [done|]. eauto.
Qed.

(** Once both handles are resolved the statement is submitted, once. *)
Lemma run_handles_resolved c (refId : string) (kernel : Kernel) (code : string) :
  Utils.processTemplate (templateStr c) (replacements c refId) = inr code →
  run c [RefIdSettles (Resolved refId); KernelSettles (Resolved kernel)] =
  {| refIdP := Settled (Resolved refId); kernelP := Settled (Resolved kernel);
     allP := Settled (Resolved (refId, kernel)); executed := [(kernel, code)];
     executeP := Some Pending; returned := Pending |}.
Proof.
  intros Hcode. unfold run. cbn [fold_left].
  unfold step at 2. unfold react. cbn [allP refIdP kernelP settle initial].
  unfold step. unfold react. cbn [allP refIdP kernelP settle executed executeP returned].
  unfold then_callback. cbn [allP refIdP kernelP executed executeP returned].
  by rewrite Hcode.
Qed.

(** The reply of the kernel settles the returned promise through
    [_resolve]. *)
Lemma run_reply c (refId : string) (kernel : Kernel) (code payload : string) :
  Utils.processTemplate (templateStr c) (replacements c refId) = inr code →
  returned (run c [RefIdSettles (Resolved refId); KernelSettles (Resolved kernel);
                   ExecuteSettles (Resolved payload)]) =
  Settled (match _resolve c payload with
           | inr v => Resolved v
           | inl e => Rejected e
           end).
Proof.
  intros Hcode.
  change (run c [RefIdSettles (Resolved refId); KernelSettles (Resolved kernel);
                 ExecuteSettles (Resolved payload)])
    with (step c (run c [RefIdSettles (Resolved refId); KernelSettles (Resolved kernel)])
            (ExecuteSettles (Resolved payload))).
  rewrite (run_handles_resolved c refId kernel code Hcode).
  unfold step, verifyResult. cbn [executeP]. by destruct (_resolve c payload).
Qed.

End DispatchProperties.

(** ** Row.js *)

Section RowProperties.
Context `{JSRuntime} {Kernel : Type}.

Lemma invoke_returns (call : Row.implemented) : ∃ c, Row.invoke call = Returns c.
Proof. destruct call; eexists; reflexivity. Qed.

Local Ltac lookup_slots :=
  rewrite ?string_of_list_ascii_of_string;
  repeat first [ rewrite lookup_insert_eq
               | rewrite lookup_singleton_eq
               | rewrite lookup_insert_ne by done ].

Local Ltac render_segments segs :=
  rewrite (processTemplate_segments _ _ segs) by reflexivity;
  cbn [Utils.fill]; lookup_slots; cbn [and_then]; f_equal;
  apply string_of_list_ascii_eq;
  rewrite ?list_ascii_of_string_app, ?app_nil_r; reflexivity.

(** Every implemented call renders the statement [<refId>.<method>(...);]
    from its template. *)
Lemma invoke_renders (call : Row.implemented) (refId : string) :
  ∃ c, Row.invoke call = Returns c
       ∧ Utils.processTemplate (templateStr c) (replacements c refId)
         = inr (Row.statement call refId).
Proof.
  destruct call as [|name|index|index|index|index|index|index|index| |args|];
    eexists; (split; [reflexivity|]); cbn [templateStr replacements];
    unfold Row.statement.
  - render_segments [Utils.Slot (chars "inRefId"); Utils.Lit (chars ".anyNull();")].
  - render_segments [Utils.Slot (chars "inRefId"); Utils.Lit (chars (dq ".fieldIndex('"));
                     Utils.Slot (chars "name"); Utils.Lit (chars (dq "');"))].
  - render_segments [Utils.Slot (chars "inRefId"); Utils.Lit (chars ".get(");
                     Utils.Slot (chars "index"); Utils.Lit (chars ");")].
  - render_segments [Utils.Slot (chars "inRefId"); Utils.Lit (chars ".getBoolean(");
                     Utils.Slot (chars "index"); Utils.Lit (chars ");")].
  - render_segments [Utils.Slot (chars "inRefId"); Utils.Lit (chars ".getByte(");
                     Utils.Slot (chars "index"); Utils.Lit (chars ");")].
  - render_segments [Utils.Slot (chars "inRefId"); Utils.Lit (chars ".getDouble(");
                     Utils.Slot (chars "index"); Utils.Lit (chars ");")].
  - render_segments [Utils.Slot (chars "inRefId"); Utils.Lit (chars ".getInt(");
                     Utils.Slot (chars "index"); Utils.Lit (chars ");")].
  - render_segments [Utils.Slot (chars "inRefId"); Utils.Lit (chars ".getString(");
                     Utils.Slot (chars "index"); Utils.Lit (chars ");")].
  - render_segments [Utils.Slot (chars "inRefId"); Utils.Lit (chars ".isNullAt(");
                     Utils.Slot (chars "index"); Utils.Lit (chars ");")].
  - render_segments [Utils.Slot (chars "inRefId"); Utils.Lit (chars ".length();")].
  - destruct args as [|arg1 [|arg2 [|arg3 [|arg4 args]]]];
      cbn [List.length Nat.eqb lookup list_lookup].
    + render_segments [Utils.Slot (chars "inRefId"); Utils.Lit (chars ".mkString();")].
    + render_segments [Utils.Slot (chars "inRefId"); Utils.Lit (chars (dq ".mkString('"));
                       Utils.Slot (chars "arg1"); Utils.Lit (chars (dq "');"))].
    + render_segments [Utils.Slot (chars "inRefId"); Utils.Lit (chars ".mkString();")].
    + render_segments [Utils.Slot (chars "inRefId"); Utils.Lit (chars (dq ".mkString('"));
                       Utils.Slot (chars "arg1"); Utils.Lit (chars (dq "', '"));
                       Utils.Slot (chars "arg2"); Utils.Lit (chars (dq "', '"));
                       Utils.Slot (chars "arg3"); Utils.Lit (chars (dq "');"))].
    + render_segments [Utils.Slot (chars "inRefId"); Utils.Lit (chars ".mkString();")].
  - render_segments [Utils.Slot (chars "inRefId"); Utils.Lit (chars ".size();")].
Qed.

(** C3: every operation the binding leaves out ([apply], [copy], [equals],
    [getDate], [getDecimal], [getFloat], [getLong], [getShort],
    [getStruct], [getTimestamp], [hashCode], [schema]) throws the
    NotImplementedException at once, whatever its argument: it returns no
    promise, and whatever happens afterwards no statement is submitted to
    the kernel. *)
Theorem unsupported_throws {A : Type} (call : Row.unsupported A)
    (trace : list (event Kernel)) :
  Row.invoke_unsupported call = Throws Row.NotImplementedException
  ∧ name Row.NotImplementedException = "NotImplementedException"
  ∧ (∀ c, Row.invoke_unsupported call ≠ Returns c)
  ∧ submitted (Row.invoke_unsupported call) trace = [].
Proof. by destruct call. Qed.

(** C4: for every implemented operation that issues a remote call
    ([anyNull], [fieldIndex], [get], [getBoolean], [getByte], [getDouble],
    [getInt], [getString], [isNullAt], [length], [mkString], [size]) and at
    every moment (after any events): if [execute] has been called, then the
    row's id promise and the kernel promise are both resolved, and it was
    called once, on that kernel, with the statement rendered for that id; if
    no event resolves the id promise, nothing is submitted; and if either
    promise is rejected, nothing is submitted and the returned promise is
    rejected. *)
Theorem execute_after_handles_resolve (call : Row.implemented)
    (trace : list (event Kernel)) :
  ∃ c, Row.invoke call = Returns c
  ∧ (executed (run c trace) ≠ [] →
     ∃ refId kernel code,
       refIdP (run c trace) = Settled (Resolved refId)
       ∧ kernelP (run c trace) = Settled (Resolved kernel)
       ∧ Utils.processTemplate (templateStr c) (replacements c refId) = inr code
       ∧ executed (run c trace) = [(kernel, code)])
  ∧ (existsb resolves_refId trace = false → submitted (Row.invoke call) trace = [])
  ∧ (is_rejected (refIdP (run c trace)) || is_rejected (kernelP (run c trace)) = true →
     executed (run c trace) = [] ∧ ∃ e, returned (run c trace) = Settled (Rejected e)).
Proof.
  destruct (invoke_returns call) as [c Hc]. exists c. rewrite Hc. split; [done|].
  destruct (consistent_executed c _ (run_consistent c trace)) as [Hex Hrej].
  split; [done|]. split; [|done].
  intros Hnever. cbn.
  destruct (executed (run c trace)) as [|x l] eqn:Hrun; [done|].
  destruct Hex as (refId & kernel & code & Hr & _); [done|].
  pose proof (run_from_refId_unresolved c initial trace eq_refl Hnever) as Hun.
  unfold run in Hr. by rewrite Hr in Hun.
Qed.

(** With both handles resolved, an implemented call submits its statement
    to the kernel, once. *)
Lemma submitted_statement (call : Row.implemented) (refId : string) (kernel : Kernel) :
  submitted (Row.invoke call)
    [RefIdSettles (Resolved refId); KernelSettles (Resolved kernel)]
  = [(kernel, Row.statement call refId)].
Proof.
  destruct (invoke_renders call refId) as (c & -> & Hcode).
  unfold submitted. by rewrite (run_handles_resolved c refId kernel _ Hcode).
Qed.

(** The promise of an implemented call after the kernel has replied. *)
Lemma promise_after_reply (call : Row.implemented) (c : remote_call)
    (refId : string) (kernel : Kernel) (payload : string) :
  Row.invoke call = Returns c →
  promise_of (Row.invoke call)
    [RefIdSettles (Resolved refId); KernelSettles (Resolved kernel);
     ExecuteSettles (Resolved payload)]
  = Some (Settled (match _resolve c payload with
                   | inr v => Resolved v
                   | inl e => Rejected e
                   end)).
Proof.
  intros Hc. destruct (invoke_renders call refId) as (c' & Hc' & Hcode).
  rewrite Hc in Hc'. injection Hc' as <-. rewrite Hc. unfold promise_of.
  by rewrite (run_reply c refId kernel _ payload Hcode).
Qed.

(** With the row's id and the kernel resolved, every implemented call
    submits one statement to that kernel: [<refId>.<method>(<arguments>);]
    with the arguments the method renders. *)
Theorem implemented_call_submits_statement (call : Row.implemented) (refId : string)
    (kernel : Kernel) :
  submitted (Row.invoke call)
    [RefIdSettles (Resolved refId); KernelSettles (Resolved kernel)]
  = [(kernel, Row.statement call refId)]
  ∧ submitted (Row.invoke call)
      [KernelSettles (Resolved kernel); RefIdSettles (Resolved refId)]
    = [(kernel, Row.statement call refId)].
Proof.
  split; [apply submitted_statement|].
  destruct (invoke_renders call refId) as (c & -> & Hcode).
  unfold submitted, run. cbn [fold_left].
  unfold step at 2. unfold react. cbn [allP refIdP kernelP settle initial].
  unfold step. unfold react. cbn [allP refIdP kernelP settle executed executeP returned].
  unfold then_callback. cbn [allP refIdP kernelP executed executeP returned].
  by rewrite Hcode.
Qed.

(** C10: [mkString] called with exactly two arguments submits the
    statement with no argument, [<refId>.mkString();].  One argument and
    three arguments are rendered into the statement; every other number of
    arguments, also above three, submits the statement with no argument. *)
Theorem mkString_two_arguments_ignored (refId : string) (kernel : Kernel) :
  (∀ arg1 arg2 : string,
     submitted (Row.mkString [arg1; arg2])
       [RefIdSettles (Resolved refId); KernelSettles (Resolved kernel)]
     = [(kernel, refId +:+ ".mkString();")])
  ∧ (∀ arg1 : string,
       submitted (Row.mkString [arg1])
         [RefIdSettles (Resolved refId); KernelSettles (Resolved kernel)]
       = [(kernel, refId +:+ dq ".mkString('" +:+ arg1 +:+ dq "');")])
  ∧ (∀ arg1 arg2 arg3 : string,
       submitted (Row.mkString [arg1; arg2; arg3])
         [RefIdSettles (Resolved refId); KernelSettles (Resolved kernel)]
       = [(kernel, refId +:+ dq ".mkString('" +:+ arg1 +:+ dq "', '" +:+ arg2
                         +:+ dq "', '" +:+ arg3 +:+ dq "');")])
  ∧ (∀ args : list string,
       length args ≠ 1 → length args ≠ 3 →
       submitted (Row.mkString args)
         [RefIdSettles (Resolved refId); KernelSettles (Resolved kernel)]
       = [(kernel, refId +:+ ".mkString();")]).
Proof.
  repeat split.
  - intros arg1 arg2. exact (submitted_statement (Row.call_mkString [arg1; arg2]) _ _).
  - intros arg1. exact (submitted_statement (Row.call_mkString [arg1]) _ _).
  - intros arg1 arg2 arg3.
    exact (submitted_statement (Row.call_mkString [arg1; arg2; arg3]) _ _).
  - intros args H1 H3.
    pose proof (submitted_statement (Row.call_mkString args) refId kernel) as Hs.
    by destruct args as [|a1 [|a2 [|a3 [|a4 l]]]].
Qed.

(** C6 (amended): the coercions of [getInt], [getDouble] and [getByte]
    never reject.  Whatever text the kernel replies, the returned promise
    resolves: with [parseInt] of the text for [getInt], [parseFloat] of it
    for [getDouble], and the code of its first character for [getByte]. *)
Theorem numeric_coercion_resolves (index : Z) (refId : string) (kernel : Kernel)
    (payload : string) :
  promise_of (Row.getInt index)
    [RefIdSettles (Resolved refId); KernelSettles (Resolved kernel);
     ExecuteSettles (Resolved payload)]
  = Some (Settled (Resolved (RNumber (parseInt payload))))
  ∧ promise_of (Row.getDouble index)
      [RefIdSettles (Resolved refId); KernelSettles (Resolved kernel);
       ExecuteSettles (Resolved payload)]
    = Some (Settled (Resolved (RNumber (parseFloat payload))))
  ∧ promise_of (Row.getByte index)
      [RefIdSettles (Resolved refId); KernelSettles (Resolved kernel);
       ExecuteSettles (Resolved payload)]
    = Some (Settled (Resolved (RNumber (charCodeAt0 payload)))).
Proof.
  split; [|split].
  - exact (promise_after_reply (Row.call_getInt index) _ refId kernel payload eq_refl).
  - exact (promise_after_reply (Row.call_getDouble index) _ refId kernel payload eq_refl).
  - exact (promise_after_reply (Row.call_getByte index) _ refId kernel payload eq_refl).
Qed.


End RowProperties.

(** A reply that is no number resolves [getInt] and [getDouble] with [NaN];
    one that starts with digits resolves with their value; [getByte]
    resolves with a character code whatever the text, and with [NaN] when
    it is empty. *)
Lemma non_numeric_payload_resolves :
  is_integer_literal "abc" = false
  ∧ promise_of (Row.getInt 0)
      [RefIdSettles (Resolved "row1"); KernelSettles (Resolved tt);
       ExecuteSettles (Resolved "abc")]
    = Some (Settled (Resolved (RNumber NaN)))
  ∧ promise_of (Row.getDouble 0)
      [RefIdSettles (Resolved "row1"); KernelSettles (Resolved tt);
       ExecuteSettles (Resolved "abc")]
    = Some (Settled (Resolved (RNumber NaN)))
  ∧ is_integer_literal "12abc" = false
  ∧ promise_of (Row.getInt 0)
      [RefIdSettles (Resolved "row1"); KernelSettles (Resolved tt);
       ExecuteSettles (Resolved "12abc")]
    = Some (Settled (Resolved (RNumber (Finite 12 0))))
  ∧ promise_of (Row.getByte 0)
      [RefIdSettles (Resolved "row1"); KernelSettles (Resolved tt);
       ExecuteSettles (Resolved "abc")]
    = Some (Settled (Resolved (RNumber (Finite 97 0))))
  ∧ promise_of (Row.getByte 0)
      [RefIdSettles (Resolved "row1"); KernelSettles (Resolved tt);
       ExecuteSettles (Resolved "")]
    = Some (Settled (Resolved (RNumber NaN))).
Proof.
  pose proof (fun call c payload =>
                promise_after_reply (H := Reference.reference_runtime)
                  call c "row1" tt payload) as Hreply.
  pose proof (Hreply (Row.call_getInt 0) _ "abc" eq_refl) as Hint.
  pose proof (Hreply (Row.call_getDouble 0) _ "abc" eq_refl) as Hdouble.
  pose proof (Hreply (Row.call_getInt 0) _ "12abc" eq_refl) as Hint'.
  pose proof (Hreply (Row.call_getByte 0) _ "abc" eq_refl) as Hbyte.
  pose proof (Hreply (Row.call_getByte 0) _ "" eq_refl) as Hbyte'.
  repeat split; done.
Qed.

(** ** The rendered call of a facade method *)

Section GenerateProperties.
Variable quote : string → string.

Lemma marshal_all_app (l1 l2 : list Utils.ArgSpec) :
  Utils.marshal_all quote (l1 ++ l2) =
  match Utils.marshal_all quote l1 with
  | inl e => inl e
  | inr texts => and_then (app texts) (Utils.marshal_all quote l2)
  end.
Proof.
  induction l1 as [|a l1 IH]; cbn [app Utils.marshal_all].
  - by destruct (Utils.marshal_all quote l2).
  - destruct (Utils.marshal quote a) as [e|[text|]]; [done| |done].
    rewrite IH. destruct (Utils.marshal_all quote l1) as [e|texts]; [done|].
    cbn. by destruct (Utils.marshal_all quote l2).
Qed.

(** C5: an optional argument left absent at the end of the argument list
    adds nothing to the rendered arguments.  So [sample(withReplacement,
    fraction)] with no seed renders [sample] with exactly its two
    arguments, and [explain()] with no flag renders [explain()]: no
    placeholder stands for the absent argument. *)
Theorem absent_optional_omitted :
  (∀ (l : list Utils.ArgSpec) (t : option Utils.arg_type),
     Utils.marshal_all quote
       (l ++ [ {| Utils.value := Utils.AUndefined; Utils.type := t;
                  Utils.optional := true |} ])
     = Utils.marshal_all quote l)
  ∧ (∀ (withReplacement : bool) (fraction : number) (targetId fresh : string),
       Utils.generate_statement quote
         (DataFrame.sample (Utils.ABoolean withReplacement) (Utils.ANumber fraction)
            Utils.AUndefined) targetId fresh
       = inr ("var " +:+ fresh +:+ " = " +:+ targetId +:+ ".sample("
              +:+ (if withReplacement then "true" else "false") +:+ ", "
              +:+ number_text fraction +:+ ");"))
  ∧ (∀ targetId fresh : string,
       Utils.generate_statement quote (DataFrame.explain Utils.AUndefined) targetId fresh
       = inr (targetId +:+ ".explain();")).
Proof.
  split; [|split].
  - intros l t. rewrite marshal_all_app. cbn.
    destruct (Utils.marshal_all quote l) as [e|texts]; [done|].
    cbn. by rewrite app_nil_r.
  - intros withReplacement fraction targetId fresh. by destruct withReplacement.
  - done.
Qed.

End GenerateProperties.

(** The example of the specification: [sample(true, 0.5)] with no seed. *)
Example sample_true_half :
  Utils.generate_statement Reference.quote
    (DataFrame.sample (Utils.ABoolean true) (Utils.ANumber (Finite 5 (-1))) Utils.AUndefined)
    "df1" "df2"
  = inr "var df2 = df1.sample(true, 0.5);".
Proof. reflexivity. Qed.

(** Rounding at work: the tie at [2 ^ 53 + 1] goes to the even neighbour
    below and the one at [2 ^ 53 + 3] to the even one above; a literal
    beyond the largest Number is an infinity, one below the smallest is
    zero. *)
Example binary64_rounds :
  parseInt "9007199254740993" = Finite 9007199254740992 0
  ∧ parseInt "9007199254740995" = Finite 9007199254740996 0
  ∧ parseFloat "9007199254740993" = Finite 9007199254740992 0
  ∧ parseFloat "1e400" = Infinity false
  ∧ parseFloat "-1e400" = Infinity true
  ∧ ToNumber "1e400" = Infinity false
  ∧ ToNumber "1e-400" = Finite 0 0
  ∧ isFinite "1e400" = false
  ∧ isFinite "1.7976931348623157e308" = true
  ∧ isFinite "1.7976931348623159e308" = false
  ∧ parseFloat "0.5" = Finite (5 * 10 ^ 52) (-53).
Proof. by vm_compute. Qed.



(** ** The static [DataFrame.show] *)

Section ShowProperties.
Context `{JSRuntime}.
Implicit Types (row : DataFrame.LocalRow) (colWidths : list nat).

Lemma string_app_cons (c : ascii) (s1 s2 : string) :
  String c s1 +:+ s2 = String c (s1 +:+ s2).
Proof. done. Qed.

Lemma string_app_assoc (s1 s2 s3 : string) : (s1 +:+ s2) +:+ s3 = s1 +:+ s2 +:+ s3.
Proof. induction s1 as [|c s1 IH]; [done|]. by rewrite !string_app_cons, IH. Qed.

Lemma string_app_nil_r (s : string) : s +:+ "" = s.
Proof. induction s as [|c s IH]; [done|]. by rewrite string_app_cons, IH. Qed.

Lemma string_length_app (s1 s2 : string) :
  String.length (s1 +:+ s2) = String.length s1 + String.length s2.
Proof. induction s1 as [|c s1 IH]; [done|]. rewrite string_app_cons. cbn. by rewrite IH. Qed.

Lemma bind_returns {A B : Type} (a : A) (f : A → js B) : (mret a ≫= f) = f a.
Proof. unfold mret, mbind, js_ret, js_bind. by destruct (f a). Qed.

Lemma bind_console_log {B : Type} (line : string) (f : unit → js B) :
  (console_log line ≫= f) = (line :: (f tt).1, (f tt).2).
Proof. unfold console_log, mbind, js_bind. by destruct (f tt). Qed.

(** One column: the text is pushed and the width raised to its length. *)
Lemma cell_returns (truncate : bool) row (colsStr : list string) colWidths
    (coln : nat) (v : json) (w : nat) :
  DataFrame.values row !! coln = Some v →
  colWidths !! coln = Some w →
  DataFrame.cell truncate row (colsStr, colWidths) coln
  = mret (colsStr ++ [DataFrame.cell_text truncate v],
          <[coln := Nat.max w (String.length (DataFrame.cell_text truncate v))]> colWidths).
Proof.
  intros Hv Hw. unfold DataFrame.cell. rewrite Hv, Hw. do 2 f_equal.
  destruct (Nat.ltb_spec w (String.length (DataFrame.cell_text truncate v))).
  - by rewrite Nat.max_r by lia.
  - rewrite Nat.max_l by lia. by rewrite list_insert_id.
Qed.

(** The loop over the columns of a row that has a value for each. *)
Lemma cells_loop (truncate : bool) row (k : nat) (done_values todo_values : list json)
    (done_widths todo_widths : list nat) (colsStr : list string) :
  DataFrame.values row = done_values ++ todo_values →
  length done_values = k →
  length done_widths = k →
  length todo_widths ≤ length todo_values →
  forEach (seq k (length todo_widths)) (DataFrame.cell truncate row)
    (colsStr, done_widths ++ todo_widths)
  = ([], inr (colsStr ++ map (DataFrame.cell_text truncate)
                           (firstn (length todo_widths) todo_values),
              done_widths ++ DataFrame.widen todo_widths
                               (map (DataFrame.cell_text truncate)
                                  (firstn (length todo_widths) todo_values)))).
Proof.
  revert k done_values todo_values done_widths colsStr.
  induction todo_widths as [|w todo_widths IH];
    intros k done_values todo_values done_widths colsStr Hvalues Hk Hdone Htodo.
  - cbn. by rewrite !app_nil_r.
  - destruct todo_values as [|v todo_values]; [cbn in Htodo; lia|].
    cbn [length seq forEach].
    rewrite (cell_returns truncate row _ _ _ v w).
    2:{ by rewrite Hvalues, lookup_app_r, Hk, Nat.sub_diag by lia. }
    2:{ by rewrite lookup_app_r, Hdone, Nat.sub_diag by lia. }
    rewrite bind_returns.
    rewrite insert_app_r_alt, Hdone, Nat.sub_diag by lia. cbn [insert list_insert].
    set (str := DataFrame.cell_text truncate v).
    rewrite (cons_middle _ done_widths), app_assoc.
    rewrite (IH (S k) (done_values ++ [v]) todo_values).
    + cbn [firstn map DataFrame.widen zip_with]. by rewrite <- !app_assoc.
    + by rewrite Hvalues, <- app_assoc.
    + rewrite length_app. cbn. lia.
    + rewrite length_app. cbn. lia.
    + cbn in Htodo. lia.
Qed.

(** A row with a value for every column gives its texts and widens every
    column. *)
Lemma data_row_returns (truncate : bool) (numCols : nat) row
    (dataStr : list (list string)) colWidths :
  length colWidths = numCols →
  numCols ≤ length (DataFrame.values row) →
  DataFrame.data_row truncate numCols (dataStr, colWidths) row
  = mret (dataStr ++ [DataFrame.cells truncate numCols row],
          DataFrame.widen colWidths (DataFrame.cells truncate numCols row)).
Proof.
  intros <- Hlen. unfold DataFrame.data_row.
  pose proof (cells_loop truncate row 0 [] (DataFrame.values row) [] colWidths []
                eq_refl eq_refl eq_refl Hlen) as Hloop.
  cbn [app] in Hloop. by rewrite Hloop.
Qed.

Lemma length_cells (truncate : bool) (numCols : nat) row :
  numCols ≤ length (DataFrame.values row) →
  length (DataFrame.cells truncate numCols row) = numCols.
Proof. intros Hlen. unfold DataFrame.cells. rewrite length_map, length_take. lia. Qed.

Lemma length_widen colWidths (texts : list string) :
  length texts = length colWidths → length (DataFrame.widen colWidths texts) = length colWidths.
Proof. intros Hlen. unfold DataFrame.widen. rewrite length_zip_with, length_map. lia. Qed.

(** The widths keep their number through the rows. *)
Lemma length_fold_widen colWidths (texts : list (list string)) :
  Forall (fun t => length t = length colWidths) texts →
  length (fold_left DataFrame.widen texts colWidths) = length colWidths.
Proof.
  revert colWidths. induction texts as [|t texts IH]; intros colWidths Htexts; [done|].
  apply Forall_cons in Htexts as [Ht Htexts]. cbn [fold_left].
  rewrite IH; rewrite length_widen by done; [done|].
  eapply Forall_impl; [exact Htexts|]. cbn. intros; lia.
Qed.

(** The loop over the rows. *)
Lemma rows_loop (truncate : bool) (numCols : nat) (rows : list DataFrame.LocalRow)
    (dataStr : list (list string)) colWidths :
  length colWidths = numCols →
  Forall (fun row => numCols ≤ length (DataFrame.values row)) rows →
  forEach rows (DataFrame.data_row truncate numCols) (dataStr, colWidths)
  = mret (dataStr ++ map (DataFrame.cells truncate numCols) rows,
          fold_left DataFrame.widen (map (DataFrame.cells truncate numCols) rows) colWidths).
Proof.
  revert dataStr colWidths.
  induction rows as [|row rows IH]; intros dataStr colWidths Hn Hrows.
  - cbn. by rewrite app_nil_r.
  - apply Forall_cons in Hrows as [Hrow Hrows]. cbn [forEach map fold_left].
    rewrite (data_row_returns truncate numCols row dataStr colWidths Hn Hrow), bind_returns.
    rewrite IH; [by rewrite <- app_assoc| |done].
    rewrite length_widen; [done|]. rewrite length_cells by done. lia.
Qed.

(** The border: dashes and a plus sign for every column. *)
Lemma separator_loop (k : nat) (done_widths todo_widths : list nat) (sepLine : string) :
  length done_widths = k →
  fold_left (fun sepLine i =>
               sepLine +:+ match (done_widths ++ todo_widths) !! i with
                           | Some w => substring 0 (w + 1) DataFrame.seps
                           | None => ""
                           end +:+ "+")
            (seq k (length todo_widths)) sepLine
  = sepLine +:+ DataFrame.glue
                  (map (fun w => substring 0 (w + 1) DataFrame.seps +:+ "+") todo_widths).
Proof.
  revert k done_widths sepLine.
  induction todo_widths as [|w todo_widths IH]; intros k done_widths sepLine Hk.
  - cbn. by rewrite string_app_nil_r.
  - cbn [length seq fold_left map DataFrame.glue fold_right].
    rewrite lookup_app_r, Hk, Nat.sub_diag by lia. cbn [lookup list_lookup].
    rewrite (cons_middle _ done_widths), app_assoc.
    rewrite (IH (S k)) by (rewrite length_app; cbn; lia).
    by rewrite !string_app_assoc.
Qed.

Lemma separator_border (numCols : nat) colWidths :
  length colWidths = numCols → DataFrame.separator numCols colWidths = DataFrame.border colWidths.
Proof. intros <-. exact (separator_loop 0 [] colWidths "+" eq_refl). Qed.

(** A line: every text justified and followed by a bar. *)
Lemma table_line_loop (numCols k : nat) (done_widths todo_widths : list nat)
    (done_texts todo_texts : list string) (line : string) :
  length done_widths = k → length done_texts = k →
  length todo_texts = length todo_widths →
  forEach (seq k (length todo_widths))
    (fun line i =>
       match (done_texts ++ todo_texts) !! i with
       | None => throw (TypeError (cannot_read "undefined" "length"))
       | Some str =>
           mret (line +:+ match (done_widths ++ todo_widths) !! i with
                          | Some w => DataFrame.justify str (w + 1)
                          | None => str
                          end +:+ "|")
       end)
    line
  = mret (line +:+ DataFrame.glue
                     (zip_with (fun w str => DataFrame.justify str (w + 1) +:+ "|")
                        todo_widths todo_texts)).
Proof.
  revert k done_widths done_texts todo_texts line.
  induction todo_widths as [|w todo_widths IH];
    intros k done_widths done_texts todo_texts line Hw Ht Hlen.
  - cbn. by rewrite string_app_nil_r.
  - destruct todo_texts as [|str todo_texts]; [done|].
    cbn [length seq forEach zip_with DataFrame.glue fold_right].
    rewrite !lookup_app_r, Hw, Ht, Nat.sub_diag by lia. cbn [lookup list_lookup].
    rewrite bind_returns.
    rewrite (cons_middle _ done_widths), (cons_middle _ done_texts), !app_assoc.
    rewrite (IH (S k)); try (rewrite length_app; cbn; lia); [|by injection Hlen].
    by rewrite !string_app_assoc.
Qed.

Lemma table_line_bordered (numCols : nat) colWidths (texts : list string) :
  length colWidths = numCols → length texts = numCols →
  DataFrame.table_line numCols colWidths texts = mret (DataFrame.bordered colWidths texts).
Proof.
  intros <- Ht. exact (table_line_loop 0 0 [] colWidths [] texts "|" eq_refl eq_refl Ht).
Qed.

(** The loop that prints the rows. *)
Lemma print_rows (numCols : nat) colWidths (dataStr : list (list string)) :
  length colWidths = numCols →
  Forall (fun texts => length texts = numCols) dataStr →
  forEach dataStr
    (fun (_ : unit) str =>
       line ← DataFrame.table_line numCols colWidths str; console_log line) tt
  = (map (DataFrame.bordered colWidths) dataStr, inr tt).
Proof.
  intros Hn. induction 1 as [|texts dataStr Ht _ IH]; [done|].
  cbn [forEach map]. rewrite (table_line_bordered numCols) by done.
  by rewrite bind_returns, bind_console_log, IH.
Qed.

(** [show] on rows that have a value for every field of the first. *)
Lemma show_returns (truncate : bool) (row0 : DataFrame.LocalRow)
    (rest : list DataFrame.LocalRow) :
  Forall (fun row => length (DataFrame.fields (DataFrame.schema row0))
                     ≤ length (DataFrame.values row)) (row0 :: rest) →
  DataFrame.show (DataFrame.rows_array (row0 :: rest)) truncate
  = (DataFrame.table truncate (row0 :: rest), inr tt).
Proof.
  intros Hrows. unfold DataFrame.show.
  cbn [DataFrame.no_data DataFrame.first_row DataFrame.rows_of].
  rewrite !bind_returns.
  set (numCols := length (DataFrame.fields (DataFrame.schema row0))) in *.
  set (names := map (fun f => String.length (DataFrame.name f))
                  (DataFrame.fields (DataFrame.schema row0))).
  assert (length names = numCols) as Hnames by apply length_map.
  rewrite (rows_loop truncate numCols (row0 :: rest) [] names Hnames Hrows), bind_returns.
  cbn [app].
  set (colWidths := fold_left DataFrame.widen
                      (map (DataFrame.cells truncate numCols) (row0 :: rest)) names).
  assert (Forall (fun texts : list string => length texts = numCols)
            (map (DataFrame.cells truncate numCols) (row0 :: rest))) as Hcells.
  { apply Forall_fmap. eapply Forall_impl; [exact Hrows|].
    intros row Hrow. by apply length_cells. }
  assert (length colWidths = numCols) as Hwidths.
  { unfold colWidths. rewrite length_fold_widen; [done|]. by rewrite Hnames. }
  rewrite (separator_border numCols colWidths Hwidths).
  rewrite (table_line_bordered numCols) by (done || apply length_map).
  rewrite (print_rows numCols colWidths _ Hwidths Hcells).
  unfold DataFrame.table, DataFrame.column_widths. fold numCols names colWidths.
  rewrite !bind_console_log, bind_returns, bind_console_log. cbn.
  by rewrite map_map.
Qed.

(** The width of a column after the rows: at least what it was and at
    least the length of every text in the column, and one of those. *)
Lemma fold_widen_lookup (texts : list (list string)) colWidths (i w : nat) :
  Forall (fun t => length t = length colWidths) texts →
  fold_left DataFrame.widen texts colWidths !! i = Some w →
  ∃ w0, colWidths !! i = Some w0
        ∧ w0 ≤ w
        ∧ (∀ t str, t ∈ texts → t !! i = Some str → String.length str ≤ w)
        ∧ (w = w0 ∨ ∃ t str, t ∈ texts ∧ t !! i = Some str ∧ w = String.length str).
Proof.
  revert colWidths. induction texts as [|t texts IH]; intros colWidths Htexts Hw.
  - exists w. repeat split; [done|lia| |by left]. intros t str Ht. by apply elem_of_nil in Ht.
  - apply Forall_cons in Htexts as [Ht Htexts]. cbn [fold_left] in Hw.
    apply IH in Hw as (w1 & Hw1 & Hle & Hall & Hsome).
    2:{ eapply Forall_impl; [exact Htexts|]. cbn. intros t' Ht'.
        by rewrite length_widen. }
    unfold DataFrame.widen in Hw1.
    apply lookup_zip_with_Some in Hw1 as (w0 & len & -> & Hw0 & Hlen).
    rewrite list_lookup_fmap in Hlen.
    destruct (t !! i) as [str|] eqn:Hstr; [|done]. injection Hlen as <-.
    exists w0. split; [done|]. split; [lia|]. split.
    + intros t' str' [->|Hin]%elem_of_cons Hstr'.
      * rewrite Hstr in Hstr'. injection Hstr' as <-. lia.
      * by eapply Hall.
    + destruct Hsome as [->|(t' & str' & Hin & Hstr' & ->)].
      * destruct (Nat.max_spec w0 (String.length str)) as [[_ ->]|[_ ->]].
        -- right. exists t, str. split; [apply elem_of_cons; by left|done].
        -- by left.
      * right. exists t', str'. split; [apply elem_of_cons; by right|done].
Qed.

Lemma length_spaces (n : nat) : String.length (spaces n) = n.
Proof. induction n as [|n IH]; [done|]. unfold spaces in *. cbn. by rewrite IH. Qed.

Lemma substring_spaces (n m : nat) : n ≤ m → substring 0 n (spaces m) = spaces n.
Proof.
  revert m. induction n as [|n IH]; intros m Hle.
  - by destruct m.
  - destruct m as [|m]; [lia|]. unfold spaces in *. cbn. by rewrite IH by lia.
Qed.

Lemma length_substring (n : nat) (s : string) :
  String.length (substring 0 n s) = Nat.min n (String.length s).
Proof.
  revert s. induction n as [|n IH]; intros s.
  - by destruct s.
  - destruct s as [|c s]; [done|]. cbn. by rewrite IH.
Qed.

(** A text that needs at most 106 blanks is padded with spaces to [len]. *)
Lemma justify_pads (str : string) (len : nat) :
  len - String.length str ≤ 106 →
  DataFrame.justify str len = str +:+ spaces (len - String.length str)
  ∧ String.length (DataFrame.justify str len) = Nat.max len (String.length str).
Proof.
  intros Hpad. unfold DataFrame.justify.
  change DataFrame.blanks with (spaces 106).
  rewrite substring_spaces by done. split; [done|].
  rewrite string_length_app, length_spaces. lia.
Qed.

(** One that needs more gets 106 and stays short of [len]. *)
Lemma justify_short (str : string) (len : nat) :
  106 < len - String.length str →
  String.length (DataFrame.justify str len) = String.length str + 106.
Proof.
  intros Hpad. unfold DataFrame.justify.
  rewrite string_length_app, length_substring.
  change (String.length DataFrame.blanks) with 106. lia.
Qed.

(** The text of a cell: cut when [truncate] is set. *)
Lemma cell_text_truncated (v : json) :
  String.length (DataFrame.cell_text true v) ≤ 20
  ∧ (20 < String.length (JSON_stringify v) →
     DataFrame.cell_text true v = substring 0 17 (JSON_stringify v) +:+ "...")
  ∧ (String.length (JSON_stringify v) ≤ 20 →
     DataFrame.cell_text true v = JSON_stringify v)
  ∧ DataFrame.cell_text false v = JSON_stringify v.
Proof.
  unfold DataFrame.cell_text. cbn [andb].
  destruct (Nat.ltb_spec 20 (String.length (JSON_stringify v))) as [Hlong|Hshort].
  - split; [|split; [done|split; [lia|done]]].
    rewrite string_length_app, length_substring.
    change (String.length "...") with 3. lia.
  - split; [lia|split; [lia|done]].
Qed.


(** C9: called with [null], [undefined] or an empty array, [show] prints
    [No data to show] and goes on to read [rows[0].schema]: the call ends
    with a TypeError, not with a return. *)
Theorem show_no_data_throws (truncate : bool) :
  DataFrame.show DataFrame.rows_null truncate
  = (["No data to show"], inl (TypeError (cannot_read "null" "0")))
  ∧ DataFrame.show DataFrame.rows_undefined truncate
    = (["No data to show"], inl (TypeError (cannot_read "undefined" "0")))
  ∧ DataFrame.show (DataFrame.rows_array []) truncate
    = (["No data to show"], inl (TypeError (cannot_read "undefined" "schema"))).
Proof. done. Qed.

(** For a non-empty list of rows, each with a value for every field of the
    first row's schema, [show] prints the table and returns: the border,
    the names of the fields, the border, one line for every row, the
    border.  The width of every column is the largest of the length of its
    field's name and the lengths of the texts of its cells. *)
Theorem show_prints_table (truncate : bool) (row0 : DataFrame.LocalRow)
    (rest : list DataFrame.LocalRow) :
  Forall (fun row => length (DataFrame.fields (DataFrame.schema row0))
                     ≤ length (DataFrame.values row)) (row0 :: rest) →
  DataFrame.show (DataFrame.rows_array (row0 :: rest)) truncate
  = (DataFrame.table truncate (row0 :: rest), inr tt)
  ∧ ∀ i w,
      DataFrame.column_widths truncate row0 (row0 :: rest) !! i = Some w →
      ∃ f, DataFrame.fields (DataFrame.schema row0) !! i = Some f
           ∧ String.length (DataFrame.name f) ≤ w
           ∧ (∀ row str,
                row ∈ row0 :: rest →
                DataFrame.cells truncate (length (DataFrame.fields (DataFrame.schema row0)))
                  row !! i = Some str →
                String.length str ≤ w)
           ∧ (w = String.length (DataFrame.name f)
              ∨ ∃ row str,
                  row ∈ row0 :: rest
                  ∧ DataFrame.cells truncate
                      (length (DataFrame.fields (DataFrame.schema row0))) row !! i = Some str
                  ∧ w = String.length str).
Proof.
  intros Hrows. split; [by apply show_returns|].
  intros i w Hw. unfold DataFrame.column_widths in Hw.
  set (numCols := length (DataFrame.fields (DataFrame.schema row0))) in *.
  apply fold_widen_lookup in Hw as (w0 & Hw0 & Hle & Hall & Hsome).
  2:{ apply Forall_fmap. eapply Forall_impl; [exact Hrows|].
      intros row Hrow. cbn. rewrite length_map. by apply length_cells. }
  rewrite list_lookup_fmap in Hw0.
  destruct (DataFrame.fields (DataFrame.schema row0) !! i) as [f|] eqn:Hf; [|done].
  injection Hw0 as <-. exists f. split; [done|]. split; [done|]. split.
  - intros row str Hrow Hstr. eapply Hall; [|exact Hstr].
    apply list_elem_of_fmap. by exists row.
  - destruct Hsome as [->|(t & str & Ht & Hstr & ->)]; [by left|right].
    apply list_elem_of_fmap in Ht as (row & -> & Hrow). by exists row, str.
Qed.

(** A text that needs at most 106 blanks to reach [len] is followed by
    exactly that many spaces, which brings it to [len] characters. *)
Theorem justify_pads_to_width (str : string) (len : nat) :
  String.length str ≤ len → len - String.length str ≤ 106 →
  DataFrame.justify str len = str +:+ spaces (len - String.length str)
  ∧ String.length (DataFrame.justify str len) = len.
Proof.
  intros Hle Hpad. destruct (justify_pads str len Hpad) as [-> Hlen].
  split; [done|]. rewrite string_length_app, length_spaces. lia.
Qed.

(** With [truncate] set, the text of a cell is the whole JSON text when
    that has at most 20 characters, and its first 17 characters followed by
    three dots otherwise: it never has more than 20.  Without [truncate] it
    is the whole JSON text. *)
Theorem cell_text_at_most_20 (v : json) :
  String.length (DataFrame.cell_text true v) ≤ 20
  ∧ DataFrame.cell_text true v
    = (if 20 <? String.length (JSON_stringify v)
       then substring 0 17 (JSON_stringify v) +:+ "..." else JSON_stringify v)
  ∧ DataFrame.cell_text false v = JSON_stringify v.
Proof.
  destruct (cell_text_truncated v) as (Hlen & Hlong & Hshort & Hfalse).
  split; [done|]. split; [|done].
  destruct (Nat.ltb_spec 20 (String.length (JSON_stringify v))); auto.
Qed.

End ShowProperties.

Lemma show_prints_table_witness :
  Forall (fun row => length (DataFrame.fields people) ≤ length (DataFrame.values row))
    two_people
  ∧ DataFrame.show (H := Reference.reference_runtime) (DataFrame.rows_array two_people) true
    = (DataFrame.table (H := Reference.reference_runtime) true two_people, inr tt)
  ∧ DataFrame.table (H := Reference.reference_runtime) true two_people
    = [ "+---------------------+----+";
        "|name                 |age |";
        "+---------------------+----+";
        dq "|'Alice'              |30  |";
        dq "|'Bartholomew the ... |4   |";
        "+---------------------+----+" ].
Proof.
  assert (Forall (fun row => length (DataFrame.fields people)
                             ≤ length (DataFrame.values row)) two_people) as Hrows
    by (repeat constructor).
  split; [exact Hrows|]. split; [|by vm_compute].
  exact (proj1 (show_prints_table (H := Reference.reference_runtime)
                  true alice [bartholomew] Hrows)).
Defined.

Lemma justify_pads_to_width_witness :
  DataFrame.justify "age" 4 = "age" +:+ spaces 1
  ∧ String.length (DataFrame.justify "age" 4) = 4.
Proof. apply (justify_pads_to_width "age" 4); cbn; lia. Defined.

(** C8 at a column wider than the constants [seps] and [blanks]: the cell
    has 122 characters, and so has the column, but the header gets 106
    blanks and the border 106 dashes.  The five lines have 108, 109, 108,
    125 and 108 characters. *)
Theorem show_wide_column :
  DataFrame.column_widths (H := Reference.reference_runtime) false
    (hd (DataFrame.Build_LocalRow [] (DataFrame.Build_StructType [])) wide_rows) wide_rows
  = [122]
  ∧ completion (DataFrame.show (H := Reference.reference_runtime)
                  (DataFrame.rows_array wide_rows) false) = inr tt
  ∧ map String.length
      (console (DataFrame.show (H := Reference.reference_runtime)
                  (DataFrame.rows_array wide_rows) false))
    = [108; 109; 108; 125; 108]
  ∧ nth 1 (console (DataFrame.show (H := Reference.reference_runtime)
                      (DataFrame.rows_array wide_rows) false)) ""
    = "|h" +:+ spaces 106 +:+ "|".
Proof. by vm_compute. Qed.

(** * Further properties of the code *)

(** ** The resolvers of the facade methods *)

Section ResolverProperties.
Context `{JSRuntime} {LocalRow : Type} (createLocal : jsvalue → jsvalue → LocalRow).

(** The resolver of [dtypes], [inputFiles] and [toJSON] prints nothing and
    calls exactly one callback: [resolve] with the parsed value, or [reject]
    with the Error [Parse Error: ...] when [JSON.parse] throws.  Whenever
    it rejects, the resolver of [collect] and [take] rejects too, with the
    same Error and without printing. *)
Theorem resolve_parses_or_rejects (result : string) :
  DataFrame._resolve result
  = ([], inr (match JSON_parse result with
              | inr res => Resolved res
              | inl e => Rejected (Error ("Parse Error: " +:+ message e))
              end))
  ∧ ∀ e, completion (DataFrame._resolve result) = inr (Rejected e) →
         DataFrame._resolveRows createLocal result = ([], inr (Rejected e)).
Proof.
  unfold DataFrame._resolve, DataFrame._resolveRows.
  destruct (JSON_parse result) as [e0|res]; cbn; (split; [done|]); intros e He.
  - by injection He as <-.
  - done.
Qed.

(** What the resolver of [collect] and [take] prints: one line [rd <JSON>]
    for every element of the array, in order; when an element is [null],
    the lines of the elements up to and including the first [null], after
    which it rejects; nothing when the payload is no array. *)
Theorem resolveRows_logs_elements (result : string) :
  match JSON_parse result with
  | inr (JArr elems) =>
      (existsb is_null elems = false →
       console (DataFrame._resolveRows createLocal result)
       = map DataFrame.rd_line elems)
      ∧ (∀ before after,
           elems = before ++ JNull :: after → existsb is_null before = false →
           DataFrame._resolveRows createLocal result
           = (map DataFrame.rd_line (before ++ [JNull]),
              inr (Rejected (Error ("Parse Error: " +:+ cannot_read "null" "values")))))
  | _ => console (DataFrame._resolveRows createLocal result) = []
  end.
Proof.
  unfold DataFrame._resolveRows.
  destruct (JSON_parse result) as [e|res]; [done|].
  destruct res as [| | | |elems|]; try done.
  cbn [mbind js_bind]. split.
  - intros Hnn. rewrite (forEach_push_row_returns createLocal elems [] Hnn). cbn.
    by rewrite ?app_nil_r.
  - intros before after -> Hnn.
    assert (∀ acc, forEach (before ++ JNull :: after) (DataFrame.push_row createLocal) acc
                   = (map DataFrame.rd_line (before ++ [JNull]),
                      inl (TypeError (cannot_read "null" "values")))) as Hloop.
    { clear -Hnn. induction before as [|rowData before IH]; intros acc.
      - done.
      - apply orb_false_elim in Hnn as [Hhd Htl]. cbn [app forEach].
        rewrite (push_row_returns createLocal _ _ Hhd). cbn [mbind js_bind].
        by rewrite (IH Htl). }
    rewrite Hloop. cbn. by rewrite ?app_nil_r.
Qed.

End ResolverProperties.

(** ** [join] *)

Section JoinProperties.
Context {Wrapped : Type} (wrapArray : list DataFrame.param → Wrapped).

(** The arguments [join] passes on: [right] first, then at most two more.
    The join type is passed only with a [Column] as second argument: with
    column names, or with an array of them, it is dropped.  A second
    argument that is falsy (absent, [null], the empty string) is dropped
    with it. *)
Theorem join_type_only_with_column (right usingColumns joinType : DataFrame.param) :
  ∃ rest,
    DataFrame.args (DataFrame.join wrapArray right usingColumns joinType)
    = {| DataFrame.value := inl right; DataFrame.type := None |} :: rest
    ∧ length rest ≤ 2
    ∧ (length rest = 2 ↔
       DataFrame.ToBoolean usingColumns = true
       ∧ DataFrame.instanceof_Column usingColumns = true
       ∧ DataFrame.ToBoolean joinType = true)
    ∧ (length rest = 2 →
       rest = [ {| DataFrame.value := inl usingColumns; DataFrame.type := None |};
                {| DataFrame.value := inl joinType; DataFrame.type := Some "string" |} ])
    ∧ (DataFrame.instanceof_Column usingColumns = false →
       DataFrame.join wrapArray right usingColumns joinType
       = DataFrame.join wrapArray right usingColumns DataFrame.PUndefined)
    ∧ (DataFrame.ToBoolean usingColumns = false →
       DataFrame.join wrapArray right usingColumns joinType
       = DataFrame.join wrapArray right DataFrame.PUndefined DataFrame.PUndefined).
Proof.
  unfold DataFrame.join.
  destruct (DataFrame.ToBoolean usingColumns) eqn:Hu;
    [destruct (DataFrame.instanceof_Column usingColumns) eqn:Hc;
     [destruct (DataFrame.ToBoolean joinType) eqn:Hj|destruct usingColumns]|];
    eexists; (split; [reflexivity|]); cbn [length app];
    repeat split; intros; destruct_and?; simplify_eq/=; try done; lia.
Qed.

End JoinProperties.

(** ** [show]: rows that are too short, and the alignment of the table *)

Section ShowLayout.
Context `{JSRuntime}.
Implicit Types (row : DataFrame.LocalRow) (colWidths : list nat).

(** A column the row has a value for, and one it has none for. *)
Lemma cell_value (truncate : bool) row (acc : list string * list nat) (coln : nat) :
  is_Some (DataFrame.values row !! coln) →
  ∃ acc', DataFrame.cell truncate row acc coln = mret acc'.
Proof.
  intros [v Hv]. destruct acc as [colsStr colWidths]. unfold DataFrame.cell.
  rewrite Hv. by eexists.
Qed.

Lemma cell_missing (truncate : bool) row (acc : list string * list nat) (coln : nat) :
  DataFrame.values row !! coln = None →
  DataFrame.cell truncate row acc coln
  = throw (TypeError (cannot_read "undefined" "length")).
Proof.
  intros Hv. destruct acc as [colsStr colWidths]. unfold DataFrame.cell. by rewrite Hv.
Qed.

(** The loop over the columns throws at the first column the row has no
    value for. *)
Lemma cells_loop_throws (truncate : bool) row (k n : nat)
    (acc : list string * list nat) :
  k ≤ length (DataFrame.values row) < k + n →
  forEach (seq k n) (DataFrame.cell truncate row) acc
  = ([], inl (TypeError (cannot_read "undefined" "length"))).
Proof.
  revert k acc. induction n as [|n IH]; intros k acc Hk; [lia|].
  cbn [seq forEach].
  destruct (DataFrame.values row !! k) as [v|] eqn:Hv.
  - destruct (cell_value truncate row acc k) as [acc' ->]; [by eexists|].
    apply lookup_lt_Some in Hv. rewrite bind_returns. apply IH. lia.
  - by rewrite cell_missing.
Qed.

Lemma data_row_throws (truncate : bool) (numCols : nat) row
    (acc : list (list string) * list nat) :
  length (DataFrame.values row) < numCols →
  DataFrame.data_row truncate numCols acc row
  = ([], inl (TypeError (cannot_read "undefined" "length"))).
Proof.
  intros Hshort. destruct acc as [dataStr colWidths]. unfold DataFrame.data_row.
  by rewrite cells_loop_throws by lia.
Qed.

(** The loop over the rows throws at the first row that is too short. *)
Lemma rows_loop_throws (truncate : bool) (numCols : nat) (rows : list DataFrame.LocalRow)
    (dataStr : list (list string)) colWidths :
  length colWidths = numCols →
  Exists (fun row => length (DataFrame.values row) < numCols) rows →
  forEach rows (DataFrame.data_row truncate numCols) (dataStr, colWidths)
  = ([], inl (TypeError (cannot_read "undefined" "length"))).
Proof.
  revert dataStr colWidths.
  induction rows as [|row rows IH]; intros dataStr colWidths Hn Hrows.
  - by apply Exists_nil in Hrows.
  - cbn [forEach].
    destruct (Nat.lt_ge_cases (length (DataFrame.values row)) numCols) as [Hshort|Hlong].
    + by rewrite data_row_throws.
    + rewrite (data_row_returns truncate numCols row dataStr colWidths Hn Hlong).
      rewrite bind_returns. apply IH.
      * rewrite length_widen; [done|]. rewrite length_cells by done. lia.
      * apply Exists_cons in Hrows as [Hrow|Hrows]; [lia|done].
Qed.

(** When some row has fewer values than the schema of the first row has
    fields, [show] throws a TypeError and has printed nothing: no line of
    the table, not even for the rows before the short one. *)
Theorem show_short_row_throws (truncate : bool) (row0 : DataFrame.LocalRow)
    (rest : list DataFrame.LocalRow) :
  Exists (fun row => length (DataFrame.values row)
                     < length (DataFrame.fields (DataFrame.schema row0))) (row0 :: rest) →
  DataFrame.show (DataFrame.rows_array (row0 :: rest)) truncate
  = ([], inl (TypeError (cannot_read "undefined" "length"))).
Proof.
  intros Hshort. unfold DataFrame.show.
  cbn [DataFrame.no_data DataFrame.first_row DataFrame.rows_of].
  rewrite !bind_returns.
  by rewrite rows_loop_throws by (done || apply length_map).
Qed.

(** *** The length of the lines *)

(** The length every line of an aligned table has: a bar, and for every
    column its width, a blank and a bar. *)
Lemma length_glue (l : list string) :
  String.length (DataFrame.glue l) = sum_list (map String.length l).
Proof.
  induction l as [|s l IH]; [done|].
  cbn [DataFrame.glue fold_right map sum_list]. rewrite string_length_app.
  by rewrite <- IH.
Qed.

Lemma length_border colWidths :
  Forall (fun w => w ≤ 105) colWidths →
  String.length (DataFrame.border colWidths) = 1 + sum_list (map (fun w => w + 2) colWidths).
Proof.
  intros Hw. unfold DataFrame.border. rewrite string_length_app.
  change (String.length "+") with 1.
  f_equal. rewrite length_glue, map_map. f_equal.
  apply map_ext_Forall. eapply Forall_impl; [exact Hw|].
  intros w Hle. cbv beta. rewrite string_length_app, length_substring.
  change (String.length DataFrame.seps) with 106.
  change (String.length "+") with 1. cbv beta in Hle. lia.
Qed.

Lemma length_bordered colWidths (texts : list string) :
  Forall2 (fun w str => String.length str ≤ w ≤ 105) colWidths texts →
  String.length (DataFrame.bordered colWidths texts)
  = 1 + sum_list (map (fun w => w + 2) colWidths).
Proof.
  intros Hall. unfold DataFrame.bordered. rewrite string_length_app.
  change (String.length "|") with 1.
  f_equal. rewrite length_glue.
  induction Hall as [|w str colWidths texts [Hstr Hw] _ IH]; [done|].
  cbn [zip_with map sum_list]. rewrite IH. f_equal.
  rewrite string_length_app.
  destruct (justify_pads str (w + 1)) as [_ ->]; [lia|].
  change (String.length "|") with 1. unfold id. lia.
Qed.

(** The widths computed for the rows are at least as long as the name and
    as every text of their column. *)
Lemma column_widths_cover (truncate : bool) (row0 : DataFrame.LocalRow)
    (rows : list DataFrame.LocalRow) :
  Forall (fun row => length (DataFrame.fields (DataFrame.schema row0))
                     ≤ length (DataFrame.values row)) rows →
  length (DataFrame.column_widths truncate row0 rows)
  = length (DataFrame.fields (DataFrame.schema row0))
  ∧ Forall2 (fun w f => String.length (DataFrame.name f) ≤ w)
      (DataFrame.column_widths truncate row0 rows) (DataFrame.fields (DataFrame.schema row0))
  ∧ Forall (fun row =>
              Forall2 (fun w str => String.length str ≤ w)
                (DataFrame.column_widths truncate row0 rows)
                (DataFrame.cells truncate (length (DataFrame.fields (DataFrame.schema row0)))
                   row))
      rows.
Proof.
  intros Hrows. unfold DataFrame.column_widths.
  set (numCols := length (DataFrame.fields (DataFrame.schema row0))) in *.
  set (names := map (fun f => String.length (DataFrame.name f))
                  (DataFrame.fields (DataFrame.schema row0))).
  assert (length names = numCols) as Hnames by apply length_map.
  assert (Forall (fun t : list string => length t = length names)
            (map (DataFrame.cells truncate numCols) rows)) as Hcells.
  { apply Forall_fmap. eapply Forall_impl; [exact Hrows|].
    intros row Hrow. cbn. rewrite Hnames. by apply length_cells. }
  assert (length (fold_left DataFrame.widen (map (DataFrame.cells truncate numCols) rows)
                    names) = numCols) as Hlen
    by (by rewrite length_fold_widen).
  split; [done|]. split.
  - apply Forall2_same_length_lookup_2; [done|].
    intros i w f Hw Hf.
    apply fold_widen_lookup in Hw as (w0 & Hw0 & Hle & _); [|done].
    unfold names in Hw0. rewrite list_lookup_fmap, Hf in Hw0. by injection Hw0 as <-.
  - apply Forall_forall. intros row Hrow.
    apply Forall2_same_length_lookup_2.
    { rewrite Hlen, length_cells; [done|].
      rewrite Forall_forall in Hrows. by apply Hrows. }
    intros i w str Hw Hstr.
    apply fold_widen_lookup in Hw as (w0 & _ & _ & Hall & _); [|done].
    eapply Hall; [|exact Hstr]. apply list_elem_of_fmap. by exists row.
Qed.

(** The table for widths of at most 105 characters: every line has the
    same length. *)
Lemma table_aligned (truncate : bool) (row0 : DataFrame.LocalRow)
    (rest : list DataFrame.LocalRow) :
  Forall (fun row => length (DataFrame.fields (DataFrame.schema row0))
                     ≤ length (DataFrame.values row)) (row0 :: rest) →
  Forall (fun w => w ≤ 105) (DataFrame.column_widths truncate row0 (row0 :: rest)) →
  Forall (fun line =>
            String.length line
            = 1 + sum_list (map (fun w => w + 2)
                              (DataFrame.column_widths truncate row0 (row0 :: rest))))
    (DataFrame.table truncate (row0 :: rest)).
Proof.
  intros Hrows Hwidths. cbn [DataFrame.table].
  destruct (column_widths_cover truncate row0 (row0 :: rest) Hrows)
    as (Hlen & Hnames & Hcells).
  set (colWidths := DataFrame.column_widths truncate row0 (row0 :: rest)) in *.
  assert (∀ texts, Forall2 (fun w (str : string) => String.length str ≤ w) colWidths texts →
                   Forall2 (fun w str => String.length str ≤ w ≤ 105) colWidths texts)
    as Hbound.
  { intros texts Htexts.
    apply Forall2_same_length_lookup_2; [by eapply Forall2_length|].
    intros i w str Hw Hstr. split.
    - exact (Forall2_lookup_lr _ _ _ _ _ _ Htexts Hw Hstr).
    - exact (Forall_lookup_1 _ _ _ _ Hwidths Hw). }
  pose proof (length_border colWidths Hwidths) as Hborder.
  assert (String.length
            (DataFrame.bordered colWidths
               (map DataFrame.name (DataFrame.fields (DataFrame.schema row0))))
          = 1 + sum_list (map (fun w => w + 2) colWidths)) as Hheader.
  { apply length_bordered, Hbound. by apply Forall2_fmap_r. }
  repeat (apply Forall_cons; split; [done|]).
  apply Forall_app. split; [|by repeat constructor].
  apply Forall_fmap. eapply Forall_impl; [exact Hcells|].
  intros row Hrow. by apply length_bordered, Hbound.
Qed.

(** With [truncate] set no column is wider than the longest field name, or
    than 20 characters. *)
Lemma truncated_widths (row0 : DataFrame.LocalRow) (rows : list DataFrame.LocalRow)
    (bound : nat) :
  Forall (fun row => length (DataFrame.fields (DataFrame.schema row0))
                     ≤ length (DataFrame.values row)) rows →
  Forall (fun f => String.length (DataFrame.name f) ≤ bound)
    (DataFrame.fields (DataFrame.schema row0)) →
  20 ≤ bound →
  Forall (fun w => w ≤ bound) (DataFrame.column_widths true row0 rows).
Proof.
  intros Hrows Hnames Hbound.
  apply Forall_lookup_2. intros i w Hw. unfold DataFrame.column_widths in Hw.
  apply fold_widen_lookup in Hw as (w0 & Hw0 & _ & _ & Hsome).
  2:{ apply Forall_fmap. eapply Forall_impl; [exact Hrows|].
      intros row Hrow. cbn. rewrite length_map. by apply length_cells. }
  rewrite list_lookup_fmap in Hw0.
  destruct (DataFrame.fields (DataFrame.schema row0) !! i) as [f|] eqn:Hf; [|done].
  injection Hw0 as <-.
  destruct Hsome as [->|(t & str & Ht & Hstr & ->)].
  - exact (Forall_lookup_1 _ _ _ _ Hnames Hf).
  - apply list_elem_of_fmap in Ht as (row & -> & _). unfold DataFrame.cells in Hstr.
    rewrite list_lookup_fmap in Hstr.
    destruct (firstn _ (DataFrame.values row) !! i) as [v|]; [|done].
    injection Hstr as <-. destruct (cell_text_truncated v) as [Hle _]. lia.
Qed.

(** While no column is wider than 105 characters the table is aligned:
    every line [show] prints has the same length, one more than the sum of
    the widths of the columns with two added to each. *)
Theorem show_lines_aligned (truncate : bool) (row0 : DataFrame.LocalRow)
    (rest : list DataFrame.LocalRow) :
  Forall (fun row => length (DataFrame.fields (DataFrame.schema row0))
                     ≤ length (DataFrame.values row)) (row0 :: rest) →
  Forall (fun w => w ≤ 105) (DataFrame.column_widths truncate row0 (row0 :: rest)) →
  Forall (fun line =>
            String.length line
            = 1 + sum_list (map (fun w => w + 2)
                              (DataFrame.column_widths truncate row0 (row0 :: rest))))
    (console (DataFrame.show (DataFrame.rows_array (row0 :: rest)) truncate)).
Proof.
  intros Hrows Hwidths. rewrite (show_returns truncate row0 rest Hrows).
  by apply table_aligned.
Qed.

(** With [truncate] set, and no field name longer than 105 characters, no
    column is wider than 105 characters, and every line [show] prints has
    the same length. *)
Theorem show_truncated_aligned (row0 : DataFrame.LocalRow) (rest : list DataFrame.LocalRow) :
  Forall (fun row => length (DataFrame.fields (DataFrame.schema row0))
                     ≤ length (DataFrame.values row)) (row0 :: rest) →
  Forall (fun f => String.length (DataFrame.name f) ≤ 105)
    (DataFrame.fields (DataFrame.schema row0)) →
  Forall (fun w => w ≤ 105) (DataFrame.column_widths true row0 (row0 :: rest))
  ∧ ∃ width,
      Forall (fun line => String.length line = width)
        (console (DataFrame.show (DataFrame.rows_array (row0 :: rest)) true)).
Proof.
  intros Hrows Hnames.
  pose proof (truncated_widths row0 (row0 :: rest) 105 Hrows Hnames ltac:(lia)) as Hwidths.
  split; [done|]. eexists. rewrite (show_returns true row0 rest Hrows).
  by apply table_aligned.
Qed.

End ShowLayout.

(** ** The coercions of [Row.js] *)

(** The coercion of the four operations that return an integer
    ([fieldIndex], [getInt], [length], [size]) gives every integer of at
    most 53 bits back from its decimal text, and gives the same integer
    when other text follows the digits: a fraction, an exponent or a unit is
    ignored. *)
Theorem integer_coercions_read_prefix (name : string) (index z : Z) (c : ascii)
    (rest : string) :
  (Z.abs z <= 2 ^ 53)%Z →
  is_digit_char c = false →
  (z = 0%Z → is_char c "x" "X" = false) →
  Forall (fun inv =>
            ∃ call, inv = Returns call
                    ∧ _resolve call (integer_text z) = inr (RNumber (Finite z 0))
                    ∧ _resolve call (integer_text z +:+ String c rest)
                      = inr (RNumber (Finite z 0)))
    [Row.fieldIndex name; Row.getInt index; Row.length; Row.size].
Proof.
  intros Hz Hc Hx.
  repeat (apply Forall_cons; split; [eexists; split; [reflexivity|]; cbn [_resolve];
                                     by rewrite parseInt_integer_text,
                                          parseInt_integer_prefix|]).
  done.
Qed.

(** What [get] resolves with is never [NaN] and never an infinity: a reply
    that is no finite numeric literal is returned unchanged, as a string,
    and so is a literal too large for binary64, such as [1e400].  A reply
    that is empty or all white space is returned as the number 0. *)
Theorem get_returns_number_or_text (index : Z) :
  ∃ call, Row.get index = Returns call
  ∧ (∀ val, (isFinite val = false ∧ _resolve call val = inr (RString val))
            ∨ (∃ m e, ToNumber val = Finite m e
                      ∧ _resolve call val = inr (RNumber (Finite m e))))
  ∧ (∀ val, forallb is_StrWhiteSpaceChar (chars val) = true →
            _resolve call val = inr (RNumber (Finite 0 0)))
  ∧ _resolve call "1e400" = inr (RString "1e400")
  ∧ _resolve call "abc" = inr (RString "abc").
Proof.
  eexists. split; [reflexivity|]. cbn [_resolve]. split; [|split; [|by vm_compute]].
  - intros val. unfold isFinite. destruct (ToNumber val) as [| |m e]; eauto.
  - intros val Hws. unfold isFinite. by rewrite (ToNumber_white_space val Hws).
Qed.


(** ** A rejected handle *)

Section RejectionProperties.
Context `{JSRuntime} {Kernel : Type}.

(** Once [Promise.all] is settled it stays as it is. *)
Lemma allP_settled (c : remote_call) (st : state Kernel) (ev : event Kernel)
    (s : settlement (string * Kernel)) :
  allP st = Settled s → allP (step c st ev) = Settled s.
Proof.
  destruct st as [r k a ex ep ret].
  unfold step, react, verifyResult, then_callback, resolve, reject, settle.
  generalize (Utils.processTemplate (templateStr c)) (replacements c) (_resolve c).
  intros render slots coerce. cbn. intros ->.
  destruct ev as [?|?|reply]; cbn; [done|done|].
  destruct ep as [[|?]|]; cbn; [|done|done].
  destruct reply; cbn; [|done]. by destruct (coerce a).
Qed.

Lemma allP_settled_run (c : remote_call) (st : state Kernel) (trace : list (event Kernel))
    (s : settlement (string * Kernel)) :
  allP st = Settled s → allP (fold_left (step c) trace st) = Settled s.
Proof.
  revert st. induction trace as [|ev trace IH]; intros st Hst; [done|].
  cbn [fold_left]. by apply IH, allP_settled.
Qed.

(** After a rejection of [Promise.all] the call stays rejected with that
    reason, and submits nothing. *)
Lemma rejected_run (c : remote_call) (first trace : list (event Kernel)) (e : jsError) :
  allP (run c first) = Settled (Rejected e) →
  returned (run c (first ++ trace)) = Settled (Rejected e)
  ∧ executed (run c (first ++ trace)) = [].
Proof.
  intros Hfirst. pose proof (run_consistent c (first ++ trace)) as Hc.
  unfold run in *. rewrite fold_left_app in *.
  unfold consistent in Hc. rewrite (allP_settled_run c _ trace _ Hfirst) in Hc.
  by destruct Hc as (? & _ & ? & _).
Qed.

(** When the id promise of the row or the kernel promise is rejected, before
    the other one settles or after it has resolved, the promise an
    implemented operation returned is rejected with the same reason, and it
    stays so whatever happens afterwards; no statement is submitted. *)
Theorem handle_rejection_is_final (call : Row.implemented) (e : jsError)
    (refId : string) (kernel : Kernel) (trace : list (event Kernel)) :
  Forall (fun first =>
            promise_of (Row.invoke call) (first ++ trace) = Some (Settled (Rejected e))
            ∧ submitted (Row.invoke call) (first ++ trace) = [])
    [ [RefIdSettles (Rejected e)];
      [KernelSettles (Rejected e)];
      [KernelSettles (Resolved kernel); RefIdSettles (Rejected e)];
      [RefIdSettles (Resolved refId); KernelSettles (Rejected e)] ].
Proof.
  destruct (invoke_returns call) as [c ->]. unfold promise_of, submitted.
  repeat (apply Forall_cons; split;
          [match goal with
           | |- context [?first ++ trace] =>
               destruct (rejected_run c first trace e eq_refl) as [-> ->]
           end; done|]).
  done.
Qed.

End RejectionProperties.

Section CoercionErrors.
Context `{JSRuntime}.

(** The coercion of an implemented operation throws only in [anyNull],
    [getBoolean] and [isNullAt], and there exactly when [JSON.parse] throws
    on the reply, with the error of [JSON.parse]; the coercions of the other
    nine operations return for every reply. *)
Theorem coercion_throws_only_parse_error (call : Row.implemented) (val : string)
    (e : jsError) :
  ∃ c, Row.invoke call = Returns c
  ∧ (_resolve c val = inl e ↔
     JSON_parse val = inl e
     ∧ (call = Row.call_anyNull
        ∨ (∃ index, call = Row.call_getBoolean index)
        ∨ (∃ index, call = Row.call_isNullAt index))).
Proof.
  destruct call; (eexists; split; [reflexivity|]); cbn [_resolve]; unfold and_then;
    try (destruct (JSON_parse val) as [e'|j] eqn:Hparse);
    (split; [intros He; simplify_eq; eauto 10|]);
    try (intros (He & [?|[[? ?]|[? ?]]]); simplify_eq; done).
Qed.

End CoercionErrors.

Section ShowReads.
Context `{JSRuntime}.

Lemma map_Forall2_eq {A B : Type} (f : A → B) (l l' : list A) :
  Forall2 (fun a a' => f a' = f a) l l' → map f l' = map f l.
Proof. induction 1 as [|a a' l l' Ha _ IH]; [done|]. cbn. by rewrite Ha, IH. Qed.

(** What [show] reads of its rows: the names of the fields of the first
    row, and of every row as many values as the first row has fields.  Rows
    that agree in these print the same: the types of the fields, the schemas
    of the rows after the first and the values beyond the fields are never
    looked at. *)
Theorem show_reads_names_and_values (truncate : bool)
    (row0 row0' : DataFrame.LocalRow) (rest rest' : list DataFrame.LocalRow) :
  Forall (fun row => length (DataFrame.fields (DataFrame.schema row0))
                     ≤ length (DataFrame.values row)) (row0 :: rest) →
  map DataFrame.name (DataFrame.fields (DataFrame.schema row0'))
  = map DataFrame.name (DataFrame.fields (DataFrame.schema row0)) →
  Forall2 (fun row row' =>
             firstn (length (DataFrame.fields (DataFrame.schema row0)))
               (DataFrame.values row')
             = firstn (length (DataFrame.fields (DataFrame.schema row0)))
                 (DataFrame.values row))
    (row0 :: rest) (row0' :: rest') →
  DataFrame.show (DataFrame.rows_array (row0' :: rest')) truncate
  = DataFrame.show (DataFrame.rows_array (row0 :: rest)) truncate.
Proof.
  intros Hrows Hnames Hvalues.
  set (numCols := length (DataFrame.fields (DataFrame.schema row0))) in *.
  assert (length (DataFrame.fields (DataFrame.schema row0')) = numCols) as Hn.
  { unfold numCols. by rewrite <- (length_map DataFrame.name), Hnames, length_map. }
  assert (Forall (fun row' => numCols ≤ length (DataFrame.values row')) (row0' :: rest'))
    as Hrows'.
  { apply Forall_lookup_2. intros i row' Hrow'.
    destruct (Forall2_lookup_r _ _ _ _ _ Hvalues Hrow') as (row & Hrow & Heq).
    pose proof (Forall_lookup_1 _ _ _ _ Hrows Hrow) as Hlen. cbv beta in Hlen.
    apply (f_equal length) in Heq. rewrite !length_take in Heq. lia. }
  rewrite (show_returns truncate row0 rest Hrows).
  rewrite (show_returns truncate row0' rest') by (by rewrite Hn).
  f_equal. unfold DataFrame.table, DataFrame.column_widths. rewrite Hn. fold numCols.
  assert (map (DataFrame.cells truncate numCols) (row0' :: rest')
          = map (DataFrame.cells truncate numCols) (row0 :: rest)) as Hcells.
  { apply map_Forall2_eq. eapply Forall2_impl; [exact Hvalues|].
    intros row row' Heq. unfold DataFrame.cells. by rewrite Heq. }
  assert (map (fun f => String.length (DataFrame.name f))
            (DataFrame.fields (DataFrame.schema row0'))
          = map (fun f => String.length (DataFrame.name f))
              (DataFrame.fields (DataFrame.schema row0))) as Hwidths.
  { rewrite <- !(map_map DataFrame.name String.length). by rewrite Hnames. }
  rewrite Hcells, Hwidths, Hnames.
  rewrite <- !(map_map (DataFrame.cells truncate numCols)
                 (DataFrame.bordered _)).
  by rewrite Hcells.
Qed.

End ShowReads.

(** ** The further properties at sample inputs *)

Lemma show_short_row_throws_witness :
  Exists (fun row => length (DataFrame.values row) < length (DataFrame.fields people))
    [alice; DataFrame.Build_LocalRow [JStr "Bob"] people]
  ∧ DataFrame.show (H := Reference.reference_runtime)
      (DataFrame.rows_array [alice; DataFrame.Build_LocalRow [JStr "Bob"] people]) true
    = ([], inl (TypeError (cannot_read (JSRuntime := Reference.reference_runtime)
                             "undefined" "length"))).
Proof.
  assert (Exists (fun row => length (DataFrame.values row)
                             < length (DataFrame.fields people))
            [alice; DataFrame.Build_LocalRow [JStr "Bob"] people]) as Hshort
    by (apply Exists_cons_tl, Exists_cons_hd; cbn; lia).
  split; [exact Hshort|].
  exact (show_short_row_throws (H := Reference.reference_runtime) true alice
           [DataFrame.Build_LocalRow [JStr "Bob"] people] Hshort).
Defined.

Lemma show_lines_aligned_witness :
  Forall (fun row => length (DataFrame.fields people) ≤ length (DataFrame.values row))
    two_people
  ∧ Forall (fun w => w ≤ 105)
      (DataFrame.column_widths (H := Reference.reference_runtime) false alice two_people)
  ∧ Forall (fun line =>
              String.length line
              = 1 + sum_list (map (fun w => w + 2)
                                (DataFrame.column_widths (H := Reference.reference_runtime)
                                   false alice two_people)))
      (console (DataFrame.show (H := Reference.reference_runtime)
                  (DataFrame.rows_array two_people) false)).
Proof.
  assert (Forall (fun row => length (DataFrame.fields people)
                             ≤ length (DataFrame.values row)) two_people) as Hrows
    by (repeat constructor).
  assert (Forall (fun w => w ≤ 105)
            (DataFrame.column_widths (H := Reference.reference_runtime) false alice
               two_people)) as Hwidths
    by (vm_compute; repeat constructor; lia).
  split; [exact Hrows|]. split; [exact Hwidths|].
  exact (show_lines_aligned (H := Reference.reference_runtime) false alice [bartholomew]
           Hrows Hwidths).
Defined.

Lemma show_truncated_aligned_witness :
  Forall (fun row => length (DataFrame.fields people) ≤ length (DataFrame.values row))
    two_people
  ∧ Forall (fun f => String.length (DataFrame.name f) ≤ 105) (DataFrame.fields people)
  ∧ Forall (fun w => w ≤ 105)
      (DataFrame.column_widths (H := Reference.reference_runtime) true alice two_people)
  ∧ ∃ width,
      Forall (fun line => String.length line = width)
        (console (DataFrame.show (H := Reference.reference_runtime)
                    (DataFrame.rows_array two_people) true)).
Proof.
  assert (Forall (fun row => length (DataFrame.fields people)
                             ≤ length (DataFrame.values row)) two_people) as Hrows
    by (repeat constructor).
  assert (Forall (fun f => String.length (DataFrame.name f) ≤ 105)
            (DataFrame.fields people)) as Hnames
    by (repeat constructor; cbn; lia).
  split; [exact Hrows|]. split; [exact Hnames|].
  exact (show_truncated_aligned (H := Reference.reference_runtime) alice [bartholomew]
           Hrows Hnames).
Defined.

Lemma integer_coercions_read_prefix_witness :
  (Z.abs 12 <= 2 ^ 53)%Z
  ∧ is_digit_char "." = false
  ∧ ((12 = 0)%Z → is_char "." "x" "X" = false)
  ∧ Forall (fun inv =>
              ∃ call, inv = Returns call
                      ∧ _resolve call (integer_text 12) = inr (RNumber (Finite 12 0))
                      ∧ _resolve call (integer_text 12 +:+ String "." "5")
                        = inr (RNumber (Finite 12 0)))
      [Row.fieldIndex "age"; Row.getInt 0; Row.length; Row.size].
Proof.
  split; [by vm_compute|]. split; [reflexivity|]. split; [lia|].
  apply (integer_coercions_read_prefix "age" 0 12 "." "5");
    [by vm_compute|reflexivity|lia].
Defined.

Lemma show_reads_names_and_values_witness :
  Forall (fun row => length (DataFrame.fields people) ≤ length (DataFrame.values row))
    two_people
  ∧ DataFrame.show (H := Reference.reference_runtime)
      (DataFrame.rows_array
         [ DataFrame.Build_LocalRow [JStr "Alice"; JNum "30"; JBool true]
             (DataFrame.Build_StructType
                [ DataFrame.Build_StructField "name" "binary" false;
                  DataFrame.Build_StructField "age" "double" true ]);
           DataFrame.Build_LocalRow (DataFrame.values bartholomew)
             (DataFrame.Build_StructType []) ]) true
    = DataFrame.show (H := Reference.reference_runtime) (DataFrame.rows_array two_people) true.
Proof.
  assert (Forall (fun row => length (DataFrame.fields people)
                             ≤ length (DataFrame.values row)) two_people) as Hrows
    by (repeat constructor).
  split; [exact Hrows|].
  apply (show_reads_names_and_values (H := Reference.reference_runtime) true alice _
           [bartholomew] _ Hrows); [reflexivity|repeat constructor].
Defined.
